(** * cf-drain-cli: the [create-drain] command

    A shallow embedding of [internal/command/create_drain.go] and the
    properties of its two provisioning strategies.

    The command is straight-line orchestration of calls into the host CLI
    (the [plugin.CliConnection]), a downloader, a password reader and two
    random sources.  A Go function that performs such calls is embedded as a
    value of the interaction tree [prog]: each call is a node [Do c k] whose
    continuation [k] receives the collaborator's answer, [Logger.Fatalf] is a
    leaf that ends the run.  An execution is a trace of (call, answer) pairs
    with an outcome; theorems quantify over every execution, that is over
    every behaviour of the collaborators. *)

From Stdlib Require Import ZArith NArith Lia Strings.Byte Strings.Ascii.
From Stdlib Require Strings.String.
From stdpp Require Import base tactics option list strings pretty gmap sorting vector.

#[global] Set Warnings "-clear-no-such-hyp".


(** ** Go values *)

(** A Go [error] is observed by this program through its message only
    ([log.Fatalf("%s", err)]). *)
Definition error := string.

(** The Go idiom [v, err := f()]: either a value, or a non-nil error. *)
Inductive Result (A : Type) : Type :=
| Ok (a : A)
| Err (e : error).
Arguments Ok {A} a.
Arguments Err {A} e.

(** The double quote character. *)
Definition dquote : ascii := ascii_of_N 34.

(** [string(b)] and [[]byte(s)]. *)
Definition string_of_bytes (b : list byte) : string := String.string_of_list_byte b.
Definition bytes_of_string (s : string) : list byte := String.list_byte_of_string s.

(** ** Package [fmt]: the verbs this command uses *)

Module fmt.

(** An operand of a formatting call, by the way [fmt] prints it. *)
Inductive operand : Type :=
| VString (s : string)
| VError (e : error)          (* printed through [Error()] *)
| VStringer (s : string)      (* a value with a [String()] method, given by its rendering *)
| VInt (n : Z)
| VBool (b : bool)
| VBytes (bs : list byte).    (* a byte slice or byte array *)

Definition hex_digit (n : N) : ascii :=
  match n with
  | 0 => "0" | 1 => "1" | 2 => "2" | 3 => "3" | 4 => "4" | 5 => "5"
  | 6 => "6" | 7 => "7" | 8 => "8" | 9 => "9" | 10 => "a" | 11 => "b"
  | 12 => "c" | 13 => "d" | 14 => "e" | _ => "f"
  end%N%char.

(** [%x] of one byte: two lower-case hexadecimal digits. *)
Definition hex_byte (b : byte) : string :=
  String (hex_digit (Byte.to_N b / 16)) (String (hex_digit (Byte.to_N b mod 16)) "").

(** [%x] of a byte slice: the digits of its bytes, without separators. *)
Fixpoint hex_bytes (bs : list byte) : string :=
  match bs with
  | [] => ""
  | b :: bs' => hex_byte b +:+ hex_bytes bs'
  end.

Definition bool_text (b : bool) : string := if b then "true" else "false".

(** [%v] of a byte slice: [[1 2 3]]. *)
Definition bytes_text (bs : list byte) : string :=
  "[" +:+ String.concat " " (map (fun b => pretty (Byte.to_N b)) bs) +:+ "]".

(** The default format [%v]. *)
Definition default_text (a : operand) : string :=
  match a with
  | VString s | VError s | VStringer s => s
  | VInt n => pretty n
  | VBool b => bool_text b
  | VBytes bs => bytes_text bs
  end.

Definition is_string (a : operand) : bool :=
  match a with VString _ => true | _ => false end.

(** [fmt.Sprint]: default formats; a space goes between two operands when
    neither is a string. *)
Fixpoint Sprint (args : list operand) : string :=
  match args with
  | [] => ""
  | a :: rest =>
      match rest with
      | [] => default_text a
      | b :: _ =>
          default_text a +:+
          (if is_string a || is_string b then "" else " ") +:+ Sprint rest
      end
  end.

Section Verbs.

(** [strconv.Quote], which [%q] applies to a string.  Its result depends on
    the Unicode tables of the Go runtime; it is a parameter here. *)
Variable Quote : string -> string.

(** One verb applied to one operand.  Pairs of verb and operand that the
    command never forms are rendered as Go's bad-verb marker, without the
    operand. *)
Definition verb_text (v : ascii) (a : operand) : string :=
  let bad := "%!" +:+ String v "(BADVERB)" in
  match v, a with
  | "v"%char, _ => default_text a
  | "s"%char, VString s | "s"%char, VError s | "s"%char, VStringer s => s
  | "s"%char, VBytes bs => string_of_bytes bs
  | "d"%char, VInt n => pretty n
  | "t"%char, VBool b => bool_text b
  | "q"%char, VString s => Quote s
  | "x"%char, VBytes bs => hex_bytes bs
  | "x"%char, VString s => hex_bytes (bytes_of_string s)
  | _, _ => bad
  end.

(** [fmt.Sprintf] for formats made of literal text, [%%] and single-letter
    verbs (no flags, width or precision: the command uses none).  Operands
    left over after the last verb are not rendered. *)
Fixpoint Sprintf_with (format : string) (args : list operand) : string :=
  match format with
  | "" => ""
  | String "%" "" => "%!(NOVERB)"
  | String "%" (String v rest) =>
      if Ascii.eqb v "%" then String "%" (Sprintf_with rest args)
      else match args with
           | a :: args' => verb_text v a +:+ Sprintf_with rest args'
           | [] => "%!" +:+ String v "(MISSING)" +:+ Sprintf_with rest []
           end
  | String c rest => String c (Sprintf_with rest args)
  end.

End Verbs.

End fmt.

(** ** Package [strings] *)

Module strings.

(** [strings.Index]: the byte offset of the first occurrence of [sub]. *)
Fixpoint Index (s sub : string) : option nat :=
  if String.prefix sub s then Some 0
  else match s with
       | "" => None
       | String _ s' => S <$> Index s' sub
       end.

(** [s[n:]]. *)
Fixpoint from (n : nat) (s : string) : string :=
  match n, s with
  | S n', String _ s' => from n' s'
  | _, _ => s
  end.

(** [strings.Replace(s, old, new, n)] for [n >= 0]: the first [n]
    non-overlapping occurrences of [old], left to right.  (With an empty
    [old] Go advances rune by rune from the second replacement on; the
    command replaces a non-empty text once.) *)
Fixpoint Replace (s old new : string) (n : nat) : string :=
  match n with
  | 0 => s
  | S n' =>
      match Index s old with
      | None => s
      | Some j =>
          String.substring 0 j s +:+ new +:+
          Replace (from (j + String.length old) s) old new n'
      end
  end.

End strings.

(** ** Package [net/url]: the query string *)

Module url.

(** The command reads and writes one field of a parsed [*url.URL],
    [RawQuery], and prints the URL with [String()].  [String()] writes the
    scheme, authority and path, then [?] and [RawQuery] when [ForceQuery] is
    set or [RawQuery] is not empty, then the fragment.  The fields around
    the query are kept as the text they print to. *)
Record URL : Type := mkURL {
  before_query : string;   (* what [String()] prints for scheme, user, host, path *)
  ForceQuery : bool;
  RawQuery : string;
  after_query : string     (* what [String()] prints for the fragment *)
}.

Definition String_ (u : URL) : string :=
  before_query u +:+
  (if ForceQuery u || negb (String.eqb (RawQuery u) "")
   then String "?" (RawQuery u) else "") +:+
  after_query u.

(** [u.RawQuery = q]. *)
Definition set_RawQuery (u : URL) (q : string) : URL :=
  {| before_query := before_query u; ForceQuery := ForceQuery u;
     RawQuery := q; after_query := after_query u |}.

(** [url.Values], a [map[string][]string]. *)
Abbreviation Values := (gmap string (list string)).

Definition ishex (c : ascii) : bool :=
  let n := N_of_ascii c in
  ((48 <=? n) && (n <=? 57) || (97 <=? n) && (n <=? 102) ||
   (65 <=? n) && (n <=? 70))%N.

Definition unhex (c : ascii) : N :=
  let n := N_of_ascii c in
  (if (48 <=? n) && (n <=? 57) then n - 48
   else if (97 <=? n) && (n <=? 102) then n - 97 + 10
   else if (65 <=? n) && (n <=? 70) then n - 65 + 10
   else 0)%N.

(** [url.QueryUnescape]: [%XX] is a byte, [+] a space; a [%] that is not
    followed by two hexadecimal digits is an error. *)
Fixpoint QueryUnescape (s : string) : option string :=
  match s with
  | "" => Some ""
  | String "%" (String h (String l rest)) =>
      if ishex h && ishex l
      then String (ascii_of_N (unhex h * 16 + unhex l)) <$> QueryUnescape rest
      else None
  | String "%" _ => None
  | String "+" rest => String " " <$> QueryUnescape rest
  | String c rest => String c <$> QueryUnescape rest
  end.

(** [shouldEscape(c, encodeQueryComponent)]: everything but the unreserved
    characters, that is letters, digits and [-_.~]. *)
Definition shouldEscape (c : ascii) : bool :=
  let n := N_of_ascii c in
  negb ((97 <=? n) && (n <=? 122) || (65 <=? n) && (n <=? 90) ||
        (48 <=? n) && (n <=? 57) ||
        (n =? 45) || (n =? 95) || (n =? 46) || (n =? 126))%N.

Definition upperhex (n : N) : ascii :=
  match n with
  | 0 => "0" | 1 => "1" | 2 => "2" | 3 => "3" | 4 => "4" | 5 => "5"
  | 6 => "6" | 7 => "7" | 8 => "8" | 9 => "9" | 10 => "A" | 11 => "B"
  | 12 => "C" | 13 => "D" | 14 => "E" | _ => "F"
  end%N%char.

(** [url.QueryEscape]. *)
Fixpoint QueryEscape (s : string) : string :=
  match s with
  | "" => ""
  | String c rest =>
      if shouldEscape c then
        if Ascii.eqb c " " then String "+" (QueryEscape rest)
        else String "%" (String (upperhex (N_of_ascii c / 16))
               (String (upperhex (N_of_ascii c mod 16)) (QueryEscape rest)))
      else String c (QueryEscape rest)
  end.

(** The pieces of [s] between the characters selected by [sep]. *)
Fixpoint fields (sep : ascii -> bool) (s : string) : list string :=
  match s with
  | "" => [""]
  | String c s' =>
      if sep c then "" :: fields sep s'
      else match fields sep s' with
           | piece :: rest => String c piece :: rest
           | [] => [String c ""]
           end
  end.

(** [key, value = key[:i], key[i+1:]] at the first [=]; no [=], no value. *)
Fixpoint cut_equals (s : string) : string * string :=
  match s with
  | "" => ("", "")
  | String c s' =>
      if Ascii.eqb c "=" then ("", s')
      else let '(k, v) := cut_equals s' in (String c k, v)
  end.

(** One round of the loop of [parseQuery]: an empty piece is skipped, a
    piece whose key or value does not unescape is skipped (its error is
    returned by [ParseQuery] and dropped by [Query]), otherwise
    [m[key] = append(m[key], value)]. *)
Definition parse_pair (m : Values) (piece : string) : Values :=
  if String.eqb piece "" then m
  else
    let '(k, v) := cut_equals piece in
    match QueryUnescape k, QueryUnescape v with
    | Some key, Some value => <[key := m !!! key ++ [value]]> m
    | _, _ => m
    end.

(** [strings.IndexAny(key, "&;")]: both characters end a piece. *)
Definition is_separator (c : ascii) : bool := Ascii.eqb c "&" || Ascii.eqb c ";".

(** The map built by [parseQuery]; the loop that cuts one piece off the
    front of [query] per round is the left fold over its pieces. *)
Definition parseQuery (query : string) : Values :=
  foldl parse_pair ∅ (fields is_separator query).

(** [u.Query()]: [ParseQuery(u.RawQuery)] with the error dropped. *)
Definition Query (u : URL) : Values := parseQuery (RawQuery u).

(** [v.Set(key, value)]: [v[key] = []string{value}]. *)
Definition Set_ (v : Values) (key value : string) : Values := <[key := [value]]> v.

(** The keys in the order of [sort.Strings]: byte-wise lexicographic. *)
Definition sorted_keys (v : Values) : list string :=
  merge_sort String.le (map fst (map_to_list v)).

Definition encode_key (v : Values) (k : string) : list string :=
  map (fun x => QueryEscape k +:+ String "=" (QueryEscape x)) (v !!! k).

(** [v.Encode()]: [key=value] pairs, keys sorted, joined by [&]. *)
Definition Encode (v : Values) : string :=
  String.concat "&" (concat (map (encode_key v) (sorted_keys v))).

End url.

(** ** Package [crypto/sha256] *)

Module sha256.

Local Open Scope N_scope.

(** 32-bit words as [N], wrap-around written out. *)
Definition wrap (x : N) : N := x mod 2 ^ 32.
Definition add (x y : N) : N := wrap (x + y).
Definition rotr (n x : N) : N := wrap (N.lor (N.shiftr x n) (N.shiftl x (32 - n))).
Definition not32 (x : N) : N := N.lxor x 4294967295.

Definition Ch (x y z : N) : N := N.lxor (N.land x y) (N.land (not32 x) z).
Definition Maj (x y z : N) : N :=
  N.lxor (N.lxor (N.land x y) (N.land x z)) (N.land y z).
Definition Sigma0 (x : N) : N := N.lxor (N.lxor (rotr 2 x) (rotr 13 x)) (rotr 22 x).
Definition Sigma1 (x : N) : N := N.lxor (N.lxor (rotr 6 x) (rotr 11 x)) (rotr 25 x).
Definition sigma0 (x : N) : N := N.lxor (N.lxor (rotr 7 x) (rotr 18 x)) (N.shiftr x 3).
Definition sigma1 (x : N) : N := N.lxor (N.lxor (rotr 17 x) (rotr 19 x)) (N.shiftr x 10).

Definition K : list N :=
  [ 1116352408; 1899447441; 3049323471; 3921009573; 961987163; 1508970993;
    2453635748; 2870763221; 3624381080; 310598401; 607225278; 1426881987;
    1925078388; 2162078206; 2614888103; 3248222580; 3835390401; 4022224774;
    264347078; 604807628; 770255983; 1249150122; 1555081692; 1996064986;
    2554220882; 2821834349; 2952996808; 3210313671; 3336571891; 3584528711;
    113926993; 338241895; 666307205; 773529912; 1294757372; 1396182291;
    1695183700; 1986661051; 2177026350; 2456956037; 2730485921; 2820302411;
    3259730800; 3345764771; 3516065817; 3600352804; 4094571909; 275423344;
    430227734; 506948616; 659060556; 883997877; 958139571; 1322822218;
    1537002063; 1747873779; 1955562222; 2024104815; 2227730452; 2361852424;
    2428436474; 2756734187; 3204031479; 3329325298 ].

(** The eight working variables. *)
Record state : Type := mkState {
  sa : N; sb : N; sc : N; sd : N; se : N; sf : N; sg : N; sh : N
}.

Definition init : state :=
  mkState 1779033703 3144134277 1013904242 2773480762
          1359893119 2600822924 528734635 1541459225.

Definition byte_of_N (n : N) : byte := default Byte.x00 (Byte.of_N (n mod 256)).

(** Big-endian words. *)
Definition word_of_bytes (bs : list byte) : N :=
  foldl (fun acc b => acc * 256 + Byte.to_N b) 0 bs.

Definition bytes_of_word (w : N) : list byte :=
  [byte_of_N (N.shiftr w 24); byte_of_N (N.shiftr w 16);
   byte_of_N (N.shiftr w 8); byte_of_N w].

Definition bytes_of_length (bits : N) : list byte :=
  bytes_of_word (wrap (N.shiftr bits 32)) ++ bytes_of_word (wrap bits).

(** Padding: the bit [1], zeros up to 56 modulo 64, the length in bits. *)
Definition pad (msg : list byte) : list byte :=
  let l := length msg in
  msg ++ [Byte.x80] ++
  replicate ((64 - (l + 9) mod 64) mod 64)%nat Byte.x00 ++
  bytes_of_length (8 * N.of_nat l).

(** The message in pieces of [n] bytes. *)
Fixpoint pieces (count n : nat) (bs : list byte) : list (list byte) :=
  match count with
  | O => []
  | S count' => take n bs :: pieces count' n (drop n bs)
  end.

(** The message schedule, most recent word first. *)
Fixpoint schedule (rounds : nat) (w : list N) : list N :=
  match rounds with
  | O => w
  | S rounds' =>
      schedule rounds'
        (add (add (sigma1 (nth 1 w 0)) (nth 6 w 0))
             (add (sigma0 (nth 14 w 0)) (nth 15 w 0)) :: w)
  end.

Definition round (s : state) (kw : N * N) : state :=
  let t1 := add (add (add (add (sh s) (Sigma1 (se s))) (Ch (se s) (sf s) (sg s)))
                     (fst kw)) (snd kw) in
  let t2 := add (Sigma0 (sa s)) (Maj (sa s) (sb s) (sc s)) in
  mkState (add t1 t2) (sa s) (sb s) (sc s) (add (sd s) t1) (se s) (sf s) (sg s).

Definition block (h : state) (chunk : list byte) : state :=
  let w16 := map word_of_bytes (pieces 16 4 chunk) in
  let w := rev (schedule 48 (rev w16)) in
  let s := foldl round h (zip K w) in
  mkState (add (sa h) (sa s)) (add (sb h) (sb s)) (add (sc h) (sc s))
          (add (sd h) (sd s)) (add (se h) (se s)) (add (sf h) (sf s))
          (add (sg h) (sg s)) (add (sh h) (sh s)).

(** [sha256.Sum256]: the 32 bytes of the digest. *)
Definition Sum256 (data : list byte) : list byte :=
  let padded := pad data in
  let h := foldl block init (pieces (length padded / 64) 64 padded) in
  bytes_of_word (sa h) ++ bytes_of_word (sb h) ++ bytes_of_word (sc h) ++
  bytes_of_word (sd h) ++ bytes_of_word (se h) ++ bytes_of_word (sf h) ++
  bytes_of_word (sg h) ++ bytes_of_word (sh h).

End sha256.

(** ** Package [github.com/nu7hatch/gouuid] *)

Module uuid.

(** [type UUID [16]byte]. *)
Definition UUID : Type := vec byte 16.

(** [u[i:j]]. *)
Definition slice (u : UUID) (i j : nat) : list byte :=
  take (j - i) (drop i (vec_to_list u)).

(** The [String] method of a UUID: the format [%x-%x-%x-%x-%x] applied to
    [u[0:4]], [u[4:6]], [u[6:8]], [u[8:10]] and [u[10:]]. *)
Definition String_ (u : UUID) : string :=
  fmt.hex_bytes (slice u 0 4) +:+ "-" +:+ fmt.hex_bytes (slice u 4 6) +:+ "-" +:+
  fmt.hex_bytes (slice u 6 8) +:+ "-" +:+ fmt.hex_bytes (slice u 8 10) +:+ "-" +:+
  fmt.hex_bytes (slice u 10 16).

End uuid.

(** ** The collaborators of the command *)

(** The two fields the command reads of [plugin_models.GetAppModel],
    [plugin_models.GetService_Model], [plugin_models.Organization] and
    [plugin_models.Space]. *)
Record model : Type := mkModel { Guid : string; Name : string }.

(** A call that leaves the command: the methods of [plugin.CliConnection]
    it uses, [Downloader.Download], the [passwordReader], [Logger.Printf],
    and the two random sources ([crypto/rand.Read] on a buffer of [n] bytes,
    [uuid.NewV4]). *)
Inductive call : Type :=
| GetApp (appName : string)
| GetService (serviceInstance : string)
| GetCurrentOrg
| GetCurrentSpace
| ApiEndpoint
| IsSSLDisabled
| CliCommand (args : list string)
| CliCommandWithoutTerminalOutput (args : list string)
| Download (assetName : string)
| ReadPassword (fd : Z)
| RandRead (n : nat)
| NewV4
| Printf (message : string).

#[export] Instance call_eq_dec : EqDecision call.
Proof. solve_decision. Defined.

(** What each call returns. *)
Definition resp (c : call) : Type :=
  match c with
  | GetApp _ | GetService _ | GetCurrentOrg | GetCurrentSpace => Result model
  | ApiEndpoint => Result string
  | IsSSLDisabled => Result bool
  | CliCommand _ | CliCommandWithoutTerminalOutput _ => Result (list string)
  | Download _ => string
  | ReadPassword _ => Result (list byte)
  | RandRead n => Result (vec byte n)
  | NewV4 => Result uuid.UUID
  | Printf _ => unit
  end.

(** ** Programs, executions *)

(** A Go function body: it returns, or it ends the process through
    [Fatalf] (which does not return: [log.Fatalf] exits, the logger of the
    tests panics), or it makes a call and goes on with the answer. *)
Inductive prog (A : Type) : Type :=
| Ret (a : A)
| Fatal (message : string)
| Do (c : call) (k : resp c -> prog A).
Arguments Ret {A} a.
Arguments Fatal {A} message.
Arguments Do {A} c k.

Fixpoint bind {A B : Type} (p : prog A) (f : A -> prog B) : prog B :=
  match p with
  | Ret a => f a
  | Fatal m => Fatal m
  | Do c k => Do c (fun r => bind (k r) f)
  end.

#[export] Instance prog_ret : MRet prog := @Ret.
#[export] Instance prog_bind : MBind prog := fun A B f p => bind p f.

(** One call with its answer. *)
Record event : Type := Ev { ev_call : call; ev_resp : resp ev_call }.

Inductive outcome (A : Type) : Type :=
| Done (a : A)
| Aborted (message : string).
Arguments Done {A} a.
Arguments Aborted {A} message.

(** [exec p tr out]: the collaborators can answer so that [p] makes exactly
    the calls of [tr], in this order, and ends with [out]. *)
Fixpoint exec {A : Type} (p : prog A) (tr : list event) (out : outcome A) : Prop :=
  match p with
  | Ret a => tr = [] /\ out = Done a
  | Fatal m => tr = [] /\ out = Aborted m
  | Do c k => exists (r : resp c) (tr' : list event), tr = Ev c r :: tr' /\ exec (k r) tr' out
  end.

(** The collaborators as one function: the answer to a call, given the
    calls and answers so far. *)
Definition world : Type := list event -> forall c : call, resp c.

(** The execution of [p] against [w], after the events [past]. *)
Fixpoint run_from {A : Type} (w : world) (past : list event) (p : prog A)
  : list event * outcome A :=
  match p with
  | Ret a => ([], Done a)
  | Fatal m => ([], Aborted m)
  | Do c k =>
      let r := w past c in
      let '(tr, out) := run_from w (past ++ [Ev c r]) (k r) in
      (Ev c r :: tr, out)
  end.

Definition run {A : Type} (w : world) (p : prog A) : list event * outcome A :=
  run_from w [] p.

(** Projections of a trace, as the stub connection of the tests records
    them: the argument vectors of [CliCommand], and of
    [CliCommandWithoutTerminalOutput]. *)
Definition cliCommandArgs (tr : list event) : list (list string) :=
  omap (fun ev => match ev_call ev with CliCommand args => Some args | _ => None end) tr.

Definition cliCommandWithoutTerminalOutputArgs (tr : list event) : list (list string) :=
  omap (fun ev => match ev_call ev with
                  | CliCommandWithoutTerminalOutput args => Some args
                  | _ => None
                  end) tr.

(** The error of a call that failed. *)
Definition failure (ev : event) : option error :=
  match ev with
  | Ev (GetApp _) (Err e) | Ev (GetService _) (Err e)
  | Ev GetCurrentOrg (Err e) | Ev GetCurrentSpace (Err e)
  | Ev ApiEndpoint (Err e) | Ev IsSSLDisabled (Err e)
  | Ev (CliCommand _) (Err e) | Ev (CliCommandWithoutTerminalOutput _) (Err e)
  | Ev (ReadPassword _) (Err e) | Ev (RandRead _) (Err e) | Ev NewV4 (Err e) => Some e
  | _ => None
  end.

(** ** The command *)

Record createDrainOpts : Type := mkOpts {
  AppOrServiceName : string;
  AdapterType : string;      (* long:"adapter-type" *)
  DrainName : string;        (* long:"drain-name" *)
  DrainType : string;        (* long:"type" *)
  DrainURL : string;
  Username : string;         (* long:"username" *)
  Password : string
}.

(** Library functions whose results the command passes on without looking
    into them: [strconv.Quote] behind the verb [%q], [ParseArgs] of a
    [go-flags] parser built on a [createDrainOpts] with the options
    [HelpFlag|PassDoubleDash] (it returns the options it has filled in and
    the positional arguments), [url.Parse] and [path.Dir]. *)
Class Libraries : Type := {
  strconv_Quote : string -> string;
  flags_ParseArgs : createDrainOpts -> list string -> Result (createDrainOpts * list string);
  url_Parse : string -> Result url.URL;
  path_Dir : string -> string
}.

Section Command.

Context {libs : Libraries}.

Import fmt.

(** [fmt.Sprintf], with the [strconv.Quote] of the libraries. *)
Definition Sprintf : string -> list operand -> string := fmt.Sprintf_with strconv_Quote.
#[global] Arguments Sprintf : simpl never.

(** [log.Fatalf(format, args...)]: the run ends with this message.  In
    [CreateDrain] and the functions it passes its [Logger] to, [log] is that
    logger; in [serviceName] and [buildDrainName] it is the standard package
    [log].  Both end the run, and the message is what they are given. *)
Definition Fatalf {A : Type} (format : string) (args : list operand) : prog A :=
  Fatal (Sprintf format args).

(** A call, returning its answer. *)
Definition invoke (c : call) : prog (resp c) := Do c Ret.

(** [if err != nil { log.Fatalf("%s", err) }]. *)
Definition must {A : Type} (r : Result A) : prog A :=
  match r with
  | Ok a => Ret a
  | Err err => Fatalf "%s" [VError err]
  end.

(** [for _, x := range l { body }]. *)
Fixpoint range {A : Type} (l : list A) (body : A -> prog unit) : prog unit :=
  match l with
  | [] => Ret tt
  | x :: l' => body x;; range l' body
  end.

(** [createDrainOpts.serviceName] (create_drain.go, lines 34-45). *)
Definition serviceName (f : createDrainOpts) : prog string :=
  if negb (String.eqb (DrainName f) "") then Ret (DrainName f)
  else
    guid ← invoke NewV4 ≫= must;
    Ret (Sprint [VString "cf-drain-"; VStringer (uuid.String_ guid)]).

(** [validDrainType] (lines 246-253). *)
Definition validDrainType (drainType : string) : bool :=
  String.eqb drainType "logs" || String.eqb drainType "metrics" ||
  String.eqb drainType "all".

(** [buildDrainName] (lines 255-266). *)
Definition buildDrainName (drainName : string) : prog string :=
  if negb (String.eqb drainName "") then Ret drainName
  else
    guid ← invoke NewV4 ≫= must;
    Ret (Sprint [VString "cf-drain-"; VStringer (uuid.String_ guid)]).

(** [createAndBindService] (lines 106-128). *)
Definition createAndBindService (u : url.URL) (appName serviceName : string)
  : prog unit :=
  invoke (GetApp appName) ≫= must;;
  invoke (CliCommand ["create-user-provided-service"; serviceName; "-l"; url.String_ u])
    ≫= must;;
  invoke (CliCommand ["bind-service"; appName; serviceName]) ≫= must;;
  Ret tt.

(** [sourceID] (lines 232-244). *)
Definition sourceID (appOrServiceName : string) : prog (Result string) :=
  app ← invoke (GetApp appOrServiceName);
  match app with
  | Err _ =>
      svc ← invoke (GetService appOrServiceName);
      match svc with
      | Err err => Ret (Err err)
      | Ok svc => Ret (Ok (Guid svc))
      end
  | Ok app => Ret (Ok (Guid app))
  end.

(** [createUser] (lines 268-303). *)
Definition createUser (username : string) : prog string :=
  data ← invoke (RandRead 20) ≫= must;
  let password := Sprintf "%x" [VBytes (sha256.Sum256 (vec_to_list data))] in
  invoke (CliCommand ["create-user"; username; password]) ≫= must;;
  org ← invoke GetCurrentOrg ≫= must;
  space ← invoke GetCurrentSpace ≫= must;
  invoke (CliCommand ["set-space-role"; username; Name org; Name space; "SpaceDeveloper"])
    ≫= must;;
  Ret password.

(** The locals [hostName], [uaaAddr] and [logCacheAddr] (lines 197-199). *)
Definition hostName (orgName spaceName appOrServiceName : string) : string :=
  Sprintf "%s.%s.%s" [VString orgName; VString spaceName; VString appOrServiceName].

Definition uaaAddr (apiEndpoint : string) : string :=
  strings.Replace apiEndpoint "api." "uaa." 1.

Definition logCacheAddr (apiEndpoint : string) : string :=
  strings.Replace apiEndpoint "api." "log-cache." 1.

(** The slice [envCommands] (lines 204-216), as a function of the locals it
    mentions. *)
Definition envCommands (serviceName sourceID hostName uaaAddr username password
    logCacheAddr : string) (u : url.URL) (skipCertVerify : bool)
    (groupName : uuid.UUID) : list (list string) :=
  [ ["set-env"; serviceName; "SOURCE_ID"; sourceID];
    ["set-env"; serviceName; "SOURCE_HOST_NAME"; hostName];
    ["set-env"; serviceName; "UAA_URL"; uaaAddr];
    ["set-env"; serviceName; "CLIENT_ID"; "cf"];
    ["set-env"; serviceName; "USERNAME"; username];
    ["set-env"; serviceName; "PASSWORD"; password];
    ["set-env"; serviceName; "LOG_CACHE_HTTP_ADDR"; logCacheAddr];
    ["set-env"; serviceName; "SYSLOG_URL"; url.String_ u];
    ["set-env"; serviceName; "SKIP_CERT_VERIFY"; Sprintf "%t" [VBool skipCertVerify]];
    ["set-env"; serviceName; "GROUP_NAME"; uuid.String_ groupName];
    ["set-env"; serviceName; "DRAIN_SCOPE"; "single"] ].

(** The loop over [envCommands] (lines 218-223). *)
Definition setEnv (commands : list (list string)) : prog unit :=
  range commands (fun cmd =>
    invoke (CliCommandWithoutTerminalOutput cmd) ≫= must;; Ret tt).

(** [pushSyslogForwarder] (lines 130-230). *)
Definition pushSyslogForwarder (u : url.URL)
    (appOrServiceName serviceName username password : string) : prog unit :=
  found ← sourceID appOrServiceName;
  sourceID ← match found with
             | Err _ => Fatalf "unknown application or service %q" [VString appOrServiceName]
             | Ok id => Ret id
             end;
  org ← invoke GetCurrentOrg ≫= must;
  space ← invoke GetCurrentSpace ≫= must;
  apiEndpoint ← invoke ApiEndpoint ≫= must;
  '(username, password) ←
    (if String.eqb username "" then
       let username := Sprintf "drain-%s" [VString sourceID] in
       password ← createUser username;
       Ret (username, password)
     else Ret (username, password));
  password ←
    (if negb (String.eqb username "") && String.eqb password "" then
       invoke (Printf (Sprintf "Enter a password for %s: " [VString username]));;
       bytePassword ← invoke (ReadPassword 0) ≫= must;
       if String.eqb (string_of_bytes bytePassword) ""
       then Fatalf "Password cannot be blank." []
       else Ret (string_of_bytes bytePassword)
     else Ret password);
  downloaded ← invoke (Download "syslog_forwarder");
  let path := path_Dir downloaded in
  invoke (CliCommand ["push"; serviceName; "-p"; path; "-b"; "binary_buildpack";
                      "-c"; "./syslog_forwarder"; "--no-start"]) ≫= must;;
  skipCertVerify ← invoke IsSSLDisabled ≫= must;
  groupName ← invoke NewV4 ≫= must;
  setEnv (envCommands serviceName sourceID
            (hostName (Name org) (Name space) appOrServiceName)
            (uaaAddr apiEndpoint) username password (logCacheAddr apiEndpoint)
            u skipCertVerify groupName);;
  invoke (CliCommand ["start"; serviceName]) ≫= must;;
  Ret tt.

(** The struct literal of line 54. *)
Definition initial_opts : createDrainOpts :=
  {| AppOrServiceName := ""; AdapterType := "service"; DrainName := "";
     DrainType := ""; DrainURL := ""; Username := ""; Password := "" |}.

(** Lines 76-84: the URL the adapters receive. *)
Definition annotate (u : url.URL) (drainType : string) : prog url.URL :=
  if negb (String.eqb drainType "") then
    if negb (validDrainType drainType) then
      Fatalf "Invalid type: %s" [VString drainType]
    else
      let qValues := url.Query u in
      let qValues := url.Set_ qValues "drain-type" drainType in
      Ret (url.set_RawQuery u (url.Encode qValues))
  else Ret u.

(** [CreateDrain] (lines 47-104).  [args[0]] and [args[1]] are read after
    the test [len(args) != 2], which the match on the two-element list
    stands for. *)
Definition CreateDrain (args : list string) : prog unit :=
  '(opts, args) ← must (flags_ParseArgs initial_opts args);
  match args with
  | [arg0; arg1] =>
      let opts := {| AppOrServiceName := arg0; AdapterType := AdapterType opts;
                     DrainName := DrainName opts; DrainType := DrainType opts;
                     DrainURL := arg1; Username := Username opts;
                     Password := Password opts |} in
      match url_Parse (DrainURL opts) with
      | Err err => Fatalf "Invalid syslog drain URL: %s" [VError err]
      | Ok u =>
          u ← annotate u (DrainType opts);
          if String.eqb (AdapterType opts) "service" then
            name ← serviceName opts;
            createAndBindService u (AppOrServiceName opts) name
          else if String.eqb (AdapterType opts) "application" then
            name ← serviceName opts;
            pushSyslogForwarder u (AppOrServiceName opts) name
              (Username opts) (Password opts)
          else
            Fatalf "unsupported adapter type, must be 'service' or 'application'" []
      end
  | _ =>
      Fatalf "Invalid arguments, expected 2, got %d." [VInt (Z.of_nat (length args))]
  end.

End Command.

(** ** A reference instance of the libraries, and stub collaborators

    Enough of the four library functions to run the command on everyday
    inputs: long options as [go-flags] reads them, URLs of the shape
    [scheme://host/path?query#fragment], paths that are already clean, and
    [strconv.Quote] on ASCII text.  The theorems below hold for every
    instance; this one supplies the concrete executions. *)

Module Reference.

(** [argumentIsOption]: [-x...] or [--x...], but not [-], [--] or [---...]. *)
Definition argumentIsOption (arg : string) : bool :=
  match arg with
  | String "-" (String "-" (String c _)) => negb (Ascii.eqb c "-")
  | String "-" (String "-" "") => false
  | String "-" (String _ _) => true
  | _ => false
  end.

(** [splitOption] for a long option: name and argument around the first [=]. *)
Fixpoint splitOption (s : string) : string * option string :=
  match s with
  | "" => ("", None)
  | String c s' =>
      if Ascii.eqb c "=" then ("", Some s')
      else let '(name, argument) := splitOption s' in (String c name, argument)
  end.

(** [option.set]: the tagged fields of [createDrainOpts]. *)
Definition set_option (opts : createDrainOpts) (name value : string)
  : option createDrainOpts :=
  if String.eqb name "adapter-type" then
    Some (mkOpts (AppOrServiceName opts) value (DrainName opts) (DrainType opts)
                 (DrainURL opts) (Username opts) (Password opts))
  else if String.eqb name "drain-name" then
    Some (mkOpts (AppOrServiceName opts) (AdapterType opts) value (DrainType opts)
                 (DrainURL opts) (Username opts) (Password opts))
  else if String.eqb name "type" then
    Some (mkOpts (AppOrServiceName opts) (AdapterType opts) (DrainName opts) value
                 (DrainURL opts) (Username opts) (Password opts))
  else if String.eqb name "username" then
    Some (mkOpts (AppOrServiceName opts) (AdapterType opts) (DrainName opts)
                 (DrainType opts) (DrainURL opts) value (Password opts))
  else None.

(** The loop of [ParseArgs]: [--] passes the rest on, a word that is not an
    option is positional, a long option takes its argument after [=] or
    from the next word (which must not look like an option).  Short
    options, [--help] and values that start with a double quote (which
    [go-flags] unquotes) are refused; the error texts are abbreviations. *)
Fixpoint parse (opts : createDrainOpts) (args retargs : list string)
  : Result (createDrainOpts * list string) :=
  match args with
  | [] => Ok (opts, retargs)
  | arg :: rest =>
      if String.eqb arg "--" then Ok (opts, retargs ++ rest)
      else if negb (argumentIsOption arg) then parse opts rest (retargs ++ [arg])
      else if negb (String.prefix "--" arg) then Err ("unknown flag `" +:+ arg +:+ "'")
      else
        let '(name, argument) := splitOption (strings.from 2 arg) in
        match argument, rest with
        | Some value, _ =>
            if String.prefix (String dquote "") value then Err "quoted value"
            else match set_option opts name value with
                 | Some opts' => parse opts' rest retargs
                 | None => Err ("unknown flag `" +:+ name +:+ "'")
                 end
        | None, value :: rest' =>
            if String.prefix (String dquote "") value then Err "quoted value"
            else match set_option opts name value with
            | Some opts' =>
                if argumentIsOption value || String.eqb value "--"
                then Err ("expected argument for flag `--" +:+ name +:+ "'")
                else parse opts' rest' retargs
            | None => Err ("unknown flag `" +:+ name +:+ "'")
            end
        | None, [] =>
            match set_option opts name "" with
            | Some _ => Err ("expected argument for flag `--" +:+ name +:+ "'")
            | None => Err ("unknown flag `" +:+ name +:+ "'")
            end
        end
  end.

Definition ParseArgs (opts : createDrainOpts) (args : list string)
  : Result (createDrainOpts * list string) :=
  parse opts args [].

(** The text before and after the first character selected by [sep]. *)
Fixpoint cut (sep : ascii -> bool) (s : string) : string * option string :=
  match s with
  | "" => ("", None)
  | String c s' =>
      if sep c then ("", Some s')
      else let '(a, b) := cut sep s' in (String c a, b)
  end.

(** [url.Parse] on [scheme://host/path?query#fragment]: the fragment is cut
    off at the first [#], the query at the first [?]; a URL that starts with
    a colon has no scheme. *)
Definition Parse (rawurl : string) : Result url.URL :=
  if String.prefix ":" rawurl
  then Err ("parse " +:+ rawurl +:+ ": missing protocol scheme")
  else
    let '(rest, frag) := cut (Ascii.eqb "#") rawurl in
    let '(head, query) := cut (Ascii.eqb "?") rest in
    Ok {| url.before_query := head;
          url.ForceQuery := match query with Some "" => true | _ => false end;
          url.RawQuery := default "" query;
          url.after_query := match frag with
                             | Some f => if String.eqb f "" then "" else String "#" f
                             | None => ""
                             end |}.

(** The text before the last [/] of [s], if there is one. *)
Fixpoint before_last_slash (s : string) : option string :=
  match s with
  | "" => None
  | String c s' =>
      match before_last_slash s' with
      | Some d => Some (String c d)
      | None => if Ascii.eqb c "/" then Some "" else None
      end
  end.

(** [path.Dir] of a clean path. *)
Definition Dir (p : string) : string :=
  match before_last_slash p with
  | None => "."
  | Some "" => "/"
  | Some d => d
  end.

(** [strconv.Quote] on ASCII text below [0x7f]: double quotes around the
    text, a backslash before a double quote and a backslash, the usual
    letters for the control characters that have one, [\x] and two digits
    for the others.  A byte from [0x7f] on is shown the same way. *)
Definition quote_char (c : ascii) : string :=
  let n := N_of_ascii c in
  if Ascii.eqb c dquote then String "\" (String dquote "") else
  if Ascii.eqb c "\" then "\\" else
  if (n =? 7)%N then "\a" else if (n =? 8)%N then "\b" else
  if (n =? 12)%N then "\f" else if (n =? 10)%N then "\n" else
  if (n =? 13)%N then "\r" else if (n =? 9)%N then "\t" else
  if (n =? 11)%N then "\v" else
  if (n <? 32)%N || (127 <=? n)%N
  then "\x" +:+ String (fmt.hex_digit (n / 16)) (String (fmt.hex_digit (n mod 16)) "")
  else String c "".

Fixpoint quote_chars (s : string) : string :=
  match s with
  | "" => ""
  | String c s' => quote_char c +:+ quote_chars s'
  end.

Definition Quote (s : string) : string :=
  String dquote (quote_chars s +:+ String dquote "").

#[export] Instance libraries : Libraries :=
  {| strconv_Quote := Quote;
     flags_ParseArgs := ParseArgs;
     url_Parse := Parse;
     path_Dir := Dir |}.

End Reference.

(** Stub collaborators, after the stub connection of the tests: what each
    call answers is read off a record. *)
Module Stub.

Record connection : Type := mkConnection {
  getAppGuid : string;
  getAppError : option error;
  getServiceGuid : string;
  getServiceError : option error;
  currentOrgName : string;
  currentOrgError : option error;
  currentSpaceName : string;
  currentSpaceError : option error;
  apiEndpoint : string;
  apiEndpointError : option error;
  sslDisabled : bool;
  commandError : list string -> option error;
  downloadPath : string;
  passwordInput : Result (list byte)
}.

Definition result {A : Type} (e : option error) (a : A) : Result A :=
  match e with
  | Some err => Err err
  | None => Ok a
  end.

(** Bytes that differ from one position to the next and from one call to
    the next. *)
Definition bytes (seed n : nat) : vec byte n :=
  fun_to_vec (fun i : fin n => sha256.byte_of_N (N.of_nat (37 * seed + 11 * fin_to_nat i + 5))).

Definition answer (s : connection) : world :=
  fun past c =>
    match c return resp c with
    | GetApp name => result (getAppError s) (mkModel (getAppGuid s) name)
    | GetService name => result (getServiceError s) (mkModel (getServiceGuid s) name)
    | GetCurrentOrg => result (currentOrgError s) (mkModel "org-guid" (currentOrgName s))
    | GetCurrentSpace => result (currentSpaceError s) (mkModel "space-guid" (currentSpaceName s))
    | ApiEndpoint => result (apiEndpointError s) (apiEndpoint s)
    | IsSSLDisabled => Ok (sslDisabled s)
    | CliCommand args => result (commandError s args) []
    | CliCommandWithoutTerminalOutput args => result (commandError s args) []
    | Download _ => downloadPath s
    | ReadPassword _ => passwordInput s
    | RandRead n => Ok (bytes (length past) n)
    | NewV4 => Ok (bytes (length past) 16)
    | Printf _ => tt
    end.

(** The connection of the tests of the application adapter. *)
Definition happy : connection :=
  {| getAppGuid := "application-guid"; getAppError := None;
     getServiceGuid := "service-instance-guid"; getServiceError := None;
     currentOrgName := "org-name"; currentOrgError := None;
     currentSpaceName := "space-name"; currentSpaceError := None;
     apiEndpoint := "api.example.com"; apiEndpointError := None;
     sslDisabled := false;
     commandError := fun _ => None;
     downloadPath := "/downloaded/temp/dir/syslog_forwarder";
     passwordInput := Ok (bytes_of_string "some-password") |}.

End Stub.

(** * Package [acceptance]: the configuration of the acceptance tests

    [acceptance/config.go]. *)

Module acceptance.

(** [time.Duration]: a number of nanoseconds. *)
Definition Duration : Type := Z.
Definition Second : Duration := 1000000000%Z.

Record TestConfig : Type := mkTestConfig {
  CFAdminUser : string;       (* env:"CF_ADMIN_USER, required" *)
  CFAdminPassword : string;   (* env:"CF_ADMIN_PASSWORD, required" *)
  CFDomain : string;          (* env:"CF_DOMAIN, required" *)
  SkipCertVerify : bool;      (* env:"SKIP_CERT_VERIFY" *)
  DefaultTimeout : Duration;  (* env:"DEFAULT_TIMEOUT" *)
  AppPushTimeout : Duration   (* env:"APP_PUSH_TIMEOUT" *)
}.

(** A non-nil [error] as [fmt] prints one that is left over after the
    verbs of a format: the name of its dynamic type and its message. *)
Record failure : Type := mkFailure { type_name : string; message : string }.

(** [envstruct.Load(t)] in one environment: the struct as the call leaves
    it, and the error it returns ([None] for [nil]). *)
Definition loader : Type := TestConfig -> TestConfig * option failure.

(** The package variable [config], a [*TestConfig]: [None] for [nil],
    otherwise the struct it points to. *)
Definition package : Type := option TestConfig.

(** How a call of [Config] ends: it returns a configuration, or
    [log.Fatalf] (of the standard package) ends the process. *)
Inductive ending : Type :=
| Returned (c : TestConfig)
| Exited (message : string).

(** [fmt.Sprintf(format, err)] for a format without verbs: the format, then
    the operand as an extra one. *)
Definition Sprintf_extra (format : string) (err : failure) : string :=
  format +:+ "%!(EXTRA " +:+ type_name err +:+ "=" +:+ message err +:+ ")".

(** [Config] (lines 23-37) in the environment [Load]: how the call ends,
    the package variable after it, and the structs it has handed to
    [envstruct.Load].  Line 28 declares a [config] of its own with [:=];
    lines 28 to 36 read and write this local variable. *)
Definition Config (Load : loader) (config : package)
  : ending * package * list TestConfig :=
  match config with
  | Some c => (Returned c, config, [])
  | None =>
      let fresh := {| CFAdminUser := ""; CFAdminPassword := ""; CFDomain := "";
                      SkipCertVerify := false;
                      DefaultTimeout := (10 * Second)%Z;
                      AppPushTimeout := (45 * Second)%Z |} in
      let '(local, err) := Load fresh in
      match err with
      | Some err =>
          (Exited (Sprintf_extra "failed to load drain test config" err), config, [fresh])
      | None => (Returned local, config, [fresh])
      end
  end.

End acceptance.

(** * Auxiliary notions *)

(** The characters of [s] all satisfy [P]. *)
Definition all_chars (P : ascii -> Prop) (s : string) : Prop :=
  Forall P (String.list_ascii_of_string s).

Definition not_separator (c : ascii) : Prop := url.is_separator c = false.

Definition not_equals (c : ascii) : Prop := c <> "="%char.

(** No value list of the map is empty. *)
Definition populated (v : url.Values) : Prop := map_Forall (fun _ xs => xs <> []) v.

(** Every call a program can make satisfies [Q]. *)
Fixpoint every_call {A : Type} (Q : call -> Prop) (p : prog A) : Prop :=
  match p with
  | Ret _ | Fatal _ => True
  | Do c k => Q c /\ forall r, every_call Q (k r)
  end.

(** A program that stops at the first failed call, with the error of the
    call as its message; the failures in [exempt] may be survived. *)
Fixpoint aborts_on_failure {A : Type} (exempt : event -> Prop) (p : prog A) : Prop :=
  match p with
  | Ret _ | Fatal _ => True
  | Do c k =>
      forall r,
        match failure (Ev c r) with
        | Some e => k r = Fatal e \/ (exempt (Ev c r) /\ aborts_on_failure exempt (k r))
        | None => aborts_on_failure exempt (k r)
        end
  end.

(** * What the specification says, as predicates on executions *)

Section Specification.

Context {libs : Libraries}.

(** The argument vector [args] parses into the options [opts] and the
    positional arguments [positional]. *)
Definition parses (args : list string) (opts : createDrainOpts)
    (positional : list string) : Prop :=
  flags_ParseArgs initial_opts args = Ok (opts, positional).

(** [--type] is absent, or one of the three drain types. *)
Definition type_accepted (opts : createDrainOpts) : Prop :=
  DrainType opts = "" \/ validDrainType (DrainType opts) = true.

(** The URL with [drain-type] set in its query. *)
Definition with_drain_type (u : url.URL) (drainType : string) : url.URL :=
  url.set_RawQuery u (url.Encode (url.Set_ (url.Query u) "drain-type" drainType)).

(** The URL an adapter receives. *)
Definition drain_url (u : url.URL) (drainType : string) : url.URL :=
  if String.eqb drainType "" then u else with_drain_type u drainType.

(** The messages of the usage errors. *)
Definition invalid_arguments (n : nat) : string :=
  "Invalid arguments, expected 2, got " +:+ pretty (Z.of_nat n) +:+ ".".

Definition invalid_type (drainType : string) : string := "Invalid type: " +:+ drainType.

Definition unsupported_adapter : string :=
  "unsupported adapter type, must be 'service' or 'application'".

(** The run makes no call and ends with [message]. *)
Definition rejected (message : string) (tr : list event) (out : outcome unit) : Prop :=
  tr = [] /\ out = Aborted message.

(** The pattern the tests match a generated name against:
    [[0-9a-f]{8}-([0-9a-f]{4}-){3}[0-9a-f]{12}]. *)
Definition lower_hex (c : ascii) : bool :=
  let n := N_of_ascii c in
  ((48 <=? n) && (n <=? 57) || (97 <=? n) && (n <=? 102))%N.

Fixpoint hex_then (n : nat) (k : string -> bool) (s : string) : bool :=
  match n, s with
  | O, _ => k s
  | S n', String c s' => lower_hex c && hex_then n' k s'
  | S _, "" => false
  end.

Definition dash_then (k : string -> bool) (s : string) : bool :=
  match s with
  | String c s' => Ascii.eqb c "-" && k s'
  | "" => false
  end.

Definition uuid_pattern : string -> bool :=
  hex_then 8 (dash_then (hex_then 4 (dash_then (hex_then 4 (dash_then
    (hex_then 4 (dash_then (hex_then 12 (String.eqb ""))))))))).

(** [cf-drain-] and a UUID. *)
Definition cf_drain_pattern (s : string) : bool :=
  String.prefix "cf-drain-" s && uuid_pattern (strings.from 9 s).

(** How the name of the service instance (or of the forwarder) comes about:
    [pre] are the calls it takes. *)
Definition named (opts : createDrainOpts) (pre : list event) (name : string) : Prop :=
  (DrainName opts <> "" /\ pre = [] /\ name = DrainName opts) \/
  (DrainName opts = "" /\
   exists g, pre = [Ev NewV4 (Ok g)] /\ name = "cf-drain-" +:+ uuid.String_ g /\
             cf_drain_pattern name = true).

(** No name could be generated. *)
Definition unnamed (opts : createDrainOpts) (tr : list event) (out : outcome unit) : Prop :=
  DrainName opts = "" /\ exists e, tr = [Ev NewV4 (Err e)] /\ out = Aborted e.

Definition create_service (name : string) (u : url.URL) : list string :=
  ["create-user-provided-service"; name; "-l"; url.String_ u].

Definition bind_service (target name : string) : list string :=
  ["bind-service"; target; name].

(** The service adapter: the lookup, then the two commands, each step only
    after the one before has succeeded; the error of a failed step is the
    message of the run. *)
Definition service_adapter (target name : string) (u : url.URL)
    (tr : list event) (out : outcome unit) : Prop :=
  (exists e, tr = [Ev (GetApp target) (Err e)] /\ out = Aborted e) \/
  (exists app e,
     tr = [Ev (GetApp target) (Ok app);
           Ev (CliCommand (create_service name u)) (Err e)] /\ out = Aborted e) \/
  (exists app o1 e,
     tr = [Ev (GetApp target) (Ok app);
           Ev (CliCommand (create_service name u)) (Ok o1);
           Ev (CliCommand (bind_service target name)) (Err e)] /\ out = Aborted e) \/
  (exists app o1 o2,
     tr = [Ev (GetApp target) (Ok app);
           Ev (CliCommand (create_service name u)) (Ok o1);
           Ev (CliCommand (bind_service target name)) (Ok o2)] /\ out = Done tt).

(** An invocation of the service adapter as the specification describes
    it: the name, then the adapter on the drain URL. *)
Definition service_invocation (opts : createDrainOpts) (target : string) (u : url.URL)
    (tr : list event) (out : outcome unit) : Prop :=
  unnamed opts tr out \/
  exists pre name rest,
    named opts pre name /\ tr = pre ++ rest /\
    service_adapter target name (drain_url u (DrainType opts)) rest out.

(** The first sentence of the contract of the service adapter, for one
    argument vector: two positional arguments, a URL that parses and the
    adapter type [service] are all it asks for. *)
Definition service_contract (args : list string) : Prop :=
  forall opts target rawurl u,
    parses args opts [target; rawurl] ->
    url_Parse rawurl = Ok u ->
    AdapterType opts = "service" ->
    forall tr out, exec (CreateDrain args) tr out -> service_invocation opts target u tr out.

(** The sentence on adapter types, for one argument vector: an adapter type
    other than the two is all it asks for. *)
Definition adapter_contract (args : list string) : Prop :=
  forall opts positional,
    parses args opts positional ->
    AdapterType opts <> "service" ->
    AdapterType opts <> "application" ->
    forall tr out, exec (CreateDrain args) tr out -> rejected unsupported_adapter tr out.

(** A command that mentions the drain URL mentions it as [text]: the
    creation of the service instance after [-l], the variable
    [SYSLOG_URL] of the forwarder as its value. *)
Definition carries (text : string) (c : call) : Prop :=
  (forall rest, c = CliCommand ("create-user-provided-service" :: rest) ->
                exists name, rest = [name; "-l"; text]) /\
  (forall name rest, c = CliCommandWithoutTerminalOutput ("set-env" :: name :: "SYSLOG_URL" :: rest) ->
                     rest = [text]).

(** The sentence on the drain type, on the query: the value is there, and
    whatever value a parameter had before, it still has. *)
Definition annotation_contract (u : url.URL) (drainType : string) : Prop :=
  drainType ∈ url.Query (with_drain_type u drainType) !!! "drain-type" /\
  forall k x, x ∈ url.Query u !!! k -> x ∈ url.Query (with_drain_type u drainType) !!! k.

Definition type_contract (args : list string) : Prop :=
  forall opts target rawurl u,
    parses args opts [target; rawurl] ->
    url_Parse rawurl = Ok u ->
    validDrainType (DrainType opts) = true ->
    annotation_contract u (DrainType opts).

(** Every failed call, those in [exempt] apart, is the last call of the
    run, and its error is the message of the run: nothing is issued after
    it, so nothing is undone. *)
Definition fail_fast {A : Type} (exempt : event -> Prop) (tr : list event)
    (out : outcome A) : Prop :=
  forall i ev e,
    tr !! i = Some ev -> failure ev = Some e -> ~ exempt ev ->
    S i = length tr /\ out = Aborted e.

(** The lookups of an application and of a service instance. *)
Definition source_lookup (ev : event) : Prop :=
  match ev_call ev with
  | GetApp _ | GetService _ => True
  | _ => False
  end.

(** The sentence on failures, for one argument vector: no step is set apart. *)
Definition failure_contract (args : list string) : Prop :=
  forall tr out, exec (CreateDrain args) tr out -> fail_fast (fun _ => False) tr out.

(** The commands on the forwarder name it [name]: [push] and [start] as
    their first argument, and every command issued without terminal output
    is [set-env name variable value]. *)
Definition forwarder_named (name : string) (c : call) : Prop :=
  (forall verb rest, c = CliCommand (verb :: rest) -> verb = "push" \/ verb = "start" ->
                     exists rest', rest = name :: rest') /\
  (forall cmd, c = CliCommandWithoutTerminalOutput cmd ->
               exists variable value, cmd = ["set-env"; name; variable; value]).

(** A run that succeeded has pushed the forwarder, set eleven variables
    and started it. *)
Definition deployed (name : string) (tr : list event) : Prop :=
  (exists path, ["push"; name; "-p"; path; "-b"; "binary_buildpack";
                 "-c"; "./syslog_forwarder"; "--no-start"] ∈ cliCommandArgs tr) /\
  last (cliCommandArgs tr) = Some ["start"; name] /\
  length (cliCommandWithoutTerminalOutputArgs tr) = 11.

(** An invocation of the application adapter: the name, settled as for the
    service adapter, is the name in its commands. *)
Definition forwarder_invocation (opts : createDrainOpts) (tr : list event)
    (out : outcome unit) : Prop :=
  unnamed opts tr out \/
  exists pre name rest,
    named opts pre name /\ tr = pre ++ rest /\
    Forall (fun ev => forwarder_named name (ev_call ev)) rest /\
    (out = Done tt -> deployed name rest).

(** The text between double quotes. *)
Definition in_quotes (s : string) : string := String dquote (s +:+ String dquote "").

(** The commands that mention the source mention it as [sid]: the variable
    [SOURCE_ID] of the forwarder, and the name of a user created for it. *)
Definition identified_by (sid : string) (c : call) : Prop :=
  (forall name rest,
     c = CliCommandWithoutTerminalOutput ("set-env" :: name :: "SOURCE_ID" :: rest) ->
     rest = [sid]) /\
  (forall rest, c = CliCommand ("create-user" :: rest) ->
                exists password, rest = ["drain-" +:+ sid; password]).

Definition no_service_lookup (c : call) : Prop := forall x, c <> GetService x.

(** The resolution of the source: the application when there is one, and
    then no service instance is looked up; otherwise the service instance;
    otherwise the end of the run, with the name as [quoted] shows it. *)
Definition source_resolution (quoted : string -> string) (target : string)
    (tr : list event) (out : outcome unit) : Prop :=
  (exists app rest,
     tr = Ev (GetApp target) (Ok app) :: rest /\
     Forall (fun ev => no_service_lookup (ev_call ev) /\
                       identified_by (Guid app) (ev_call ev)) rest) \/
  (exists e svc rest,
     tr = Ev (GetApp target) (Err e) :: Ev (GetService target) (Ok svc) :: rest /\
     Forall (fun ev => identified_by (Guid svc) (ev_call ev)) rest) \/
  (exists e e',
     tr = [Ev (GetApp target) (Err e); Ev (GetService target) (Err e')] /\
     out = Aborted ("unknown application or service " +:+ quoted target)).

(** The sentence on the resolution of the source, for one name: the
    message shows the name between double quotes. *)
Definition source_contract (target : string) : Prop :=
  forall u name username password tr out,
    exec (pushSyslogForwarder u target name username password) tr out ->
    source_resolution in_quotes target tr out.

(** [s] with its first occurrence of [old] replaced by [new], said without
    the search: [old] stands between [pre] and [post], and nowhere further
    to the left. *)
Definition first_occurrence (old s pre post : string) : Prop :=
  s = pre +:+ old +:+ post /\
  forall pre' post', s = pre' +:+ old +:+ post' -> String.length pre <= String.length pre'.

Definition replaced_first (old new s result : string) : Prop :=
  (exists pre post, first_occurrence old s pre post /\ result = pre +:+ new +:+ post) \/
  ((forall pre post, s <> pre +:+ old +:+ post) /\ result = s).

(** The answers of the session: the first run of three calls that give
    the organization, the space and the API endpoint, and the calls after
    them. *)
Definition org_answer (ev : event) : option model :=
  match ev with
  | Ev GetCurrentOrg (Ok org) => Some org
  | _ => None
  end.

Definition space_answer (ev : event) : option model :=
  match ev with
  | Ev GetCurrentSpace (Ok space) => Some space
  | _ => None
  end.

Definition endpoint_answer (ev : event) : option string :=
  match ev with
  | Ev ApiEndpoint (Ok endpoint) => Some endpoint
  | _ => None
  end.

Fixpoint session_of (tr : list event) : option (model * model * string * list event) :=
  match tr with
  | e1 :: tr' =>
      match tr' with
      | e2 :: e3 :: rest =>
          match org_answer e1, space_answer e2, endpoint_answer e3 with
          | Some org, Some space, Some endpoint => Some (org, space, endpoint, rest)
          | _, _, _ => session_of tr'
          end
      | _ => None
      end
  | [] => None
  end.

(** The three variables that derive from the session. *)
Definition derived_from (org space endpoint target : string) (c : call) : Prop :=
  (forall name rest,
     c = CliCommandWithoutTerminalOutput ("set-env" :: name :: "SOURCE_HOST_NAME" :: rest) ->
     rest = [org +:+ "." +:+ space +:+ "." +:+ target]) /\
  (forall name rest,
     c = CliCommandWithoutTerminalOutput ("set-env" :: name :: "UAA_URL" :: rest) ->
     exists value, rest = [value] /\ replaced_first "api." "uaa." endpoint value) /\
  (forall name rest,
     c = CliCommandWithoutTerminalOutput ("set-env" :: name :: "LOG_CACHE_HTTP_ADDR" :: rest) ->
     exists value, rest = [value] /\ replaced_first "api." "log-cache." endpoint value).

(** The calls after the first [push] that succeeded. *)
Definition is_push (ev : event) : bool :=
  match ev with
  | Ev (CliCommand (verb :: _)) (Ok _) => String.eqb verb "push"
  | _ => false
  end.

Fixpoint after_push (tr : list event) : option (list event) :=
  match tr with
  | [] => None
  | ev :: rest => if is_push ev then Some rest else after_push rest
  end.

Definition quiet (cmd : list string) : call := CliCommandWithoutTerminalOutput cmd.

Definition succeeded (ev : event) : Prop := failure ev = None.

(** Commands issued one by one, each only after the one before has
    succeeded: either one of them fails, it is the last call and its error
    the message of the run, or they are all issued and all succeed. *)
Definition one_by_one {A : Type} (cmds : list (list string)) (tr : list event)
    (out : outcome A) : Prop :=
  exists n cmd e,
    cmds !! n = Some cmd /\
    map ev_call tr = map quiet (take (S n) cmds) /\
    Forall succeeded (take n tr) /\
    last tr = Some (Ev (quiet cmd) (Err e)) /\
    out = Aborted e.

Definition all_issued (cmds : list (list string)) (tr : list event) : Prop :=
  map ev_call tr = map quiet cmds /\ Forall succeeded tr.

(** The eleven variables, in the order of the commands. *)
Definition variables : list string :=
  ["SOURCE_ID"; "SOURCE_HOST_NAME"; "UAA_URL"; "CLIENT_ID"; "USERNAME"; "PASSWORD";
   "LOG_CACHE_HTTP_ADDR"; "SYSLOG_URL"; "SKIP_CERT_VERIFY"; "GROUP_NAME"; "DRAIN_SCOPE"].

(** What a run does after the push: it asks whether certificates are
    verified, generates the group id, sets the variables one by one, and
    starts the forwarder. *)
Definition environment_phase (name : string) (u : url.URL) (rest : list event)
    (out : outcome unit) : Prop :=
  (exists e, rest = [Ev IsSSLDisabled (Err e)] /\ out = Aborted e) \/
  (exists skip e, rest = [Ev IsSSLDisabled (Ok skip); Ev NewV4 (Err e)] /\ out = Aborted e) \/
  (exists skip g sid host uaa user pass lc settings after,
     rest = Ev IsSSLDisabled (Ok skip) :: Ev NewV4 (Ok g) :: settings ++ after /\
     (one_by_one (envCommands name sid host uaa user pass lc u skip g) settings out /\
      after = [] \/
      all_issued (envCommands name sid host uaa user pass lc u skip g) settings /\
      exists r, after = [Ev (CliCommand ["start"; name]) r] /\
                out = match r with Ok _ => Done tt | Err e => Aborted e end)).

(** The identity of the source, as the lookups answered it. *)
Definition source_of (tr : list event) : option string :=
  match tr with
  | Ev (GetApp _) (Ok app) :: _ => Some (Guid app)
  | Ev (GetApp _) (Err _) :: Ev (GetService _) (Ok svc) :: _ => Some (Guid svc)
  | _ => None
  end.

(** An answer that is checked: an error is the message of the run and
    nothing follows, a value goes on to [k]. *)
Definition checked {A B : Type} (r : Result A) (more : list event) (out : outcome B)
    (k : A -> Prop) : Prop :=
  match r with
  | Err e => more = [] /\ out = Aborted e
  | Ok a => k a
  end.

(** The credentials the forwarder is given. *)
Definition credentials_used (user pass : string) (c : call) : Prop :=
  (forall name rest,
     c = CliCommandWithoutTerminalOutput ("set-env" :: name :: "USERNAME" :: rest) ->
     rest = [user]) /\
  (forall name rest,
     c = CliCommandWithoutTerminalOutput ("set-env" :: name :: "PASSWORD" :: rest) ->
     rest = [pass]).

(** The run once the credentials are known: it goes on with the download,
    and sets [USERNAME] and [PASSWORD] to them. *)
Definition provisioned (name user pass : string) (rest : list event)
    (out : outcome unit) : Prop :=
  (exists r more, rest = Ev (Download "syslog_forwarder") r :: more) /\
  Forall (fun ev => credentials_used user pass (ev_call ev)) rest /\
  (out = Done tt ->
   ["set-env"; name; "USERNAME"; user] ∈ cliCommandWithoutTerminalOutputArgs rest /\
   ["set-env"; name; "PASSWORD"; pass] ∈ cliCommandWithoutTerminalOutputArgs rest).

(** The password of a user the run creates. *)
Definition digest_password (data : vec byte 20) : string :=
  fmt.hex_bytes (sha256.Sum256 (vec_to_list data)).

(** No user name was given: twenty random bytes are read, the user
    [drain-<source id>] is created with the digest of the bytes as password,
    the organization and the space are asked for, and the user is made a
    [SpaceDeveloper] of them. *)
Definition user_creation (name sid : string) (rest : list event) (out : outcome unit) : Prop :=
  let user := "drain-" +:+ sid in
  exists r1 m1, rest = Ev (RandRead 20) r1 :: m1 /\ checked r1 m1 out (fun data =>
  let pass := digest_password data in
  exists r2 m2, m1 = Ev (CliCommand ["create-user"; user; pass]) r2 :: m2 /\
    checked r2 m2 out (fun _ =>
  exists r3 m3, m2 = Ev GetCurrentOrg r3 :: m3 /\ checked r3 m3 out (fun org =>
  exists r4 m4, m3 = Ev GetCurrentSpace r4 :: m4 /\ checked r4 m4 out (fun space =>
  exists r5 m5,
    m4 = Ev (CliCommand ["set-space-role"; user; Name org; Name space; "SpaceDeveloper"]) r5
           :: m5 /\
    checked r5 m5 out (fun _ => provisioned name user pass m5 out))))).

(** A user name was given without a password: the run prompts and reads
    the password; on the empty input it ends with the message [blank], any
    other input is the password. *)
Definition password_prompt (blank : string) (name user : string) (rest : list event)
    (out : outcome unit) : Prop :=
  exists r1 m1,
    rest = Ev (Printf ("Enter a password for " +:+ user +:+ ": ")) r1 :: m1 /\
  exists r2 m2, m1 = Ev (ReadPassword 0) r2 :: m2 /\ checked r2 m2 out (fun input =>
    match input with
    | [] => m2 = [] /\ out = Aborted blank
    | _ :: _ => provisioned name user (string_of_bytes input) m2 out
    end).

(** The calls after the session was read, by the credentials given. *)
Definition credentials (blank : string) (name username password sid : string)
    (rest : list event) (out : outcome unit) : Prop :=
  if String.eqb username "" then user_creation name sid rest out
  else if String.eqb password "" then password_prompt blank name username rest out
  else provisioned name username password rest out.

Definition credentials_contract (blank : string) (username password : string) : Prop :=
  forall u target name tr out,
    exec (pushSyslogForwarder u target name username password) tr out ->
    forall sid org space endpoint rest,
      source_of tr = Some sid ->
      session_of tr = Some (org, space, endpoint, rest) ->
      credentials blank name username password sid rest out.

(** The sentence on the credentials, with the message as it words it. *)
Definition password_contract (username password : string) : Prop :=
  credentials_contract "Password cannot be blank" username password.

End Specification.

(** * Further properties of the command *)

(** A program that makes at most [n] calls. *)
Fixpoint at_most {A : Type} (n : nat) (p : prog A) {struct p} : Prop :=
  match p with
  | Ret _ | Fatal _ => True
  | Do c k =>
      match n with
      | O => False
      | S n' => forall r, at_most n' (k r)
      end
  end.

(** A program all of whose fatal messages are explained by the call made
    last: [E ev m] says that [m] may be the message after the event [ev]. *)
Fixpoint accounts {A : Type} (E : event -> string -> Prop) (prev : event) (p : prog A)
    {struct p} : Prop :=
  match p with
  | Ret _ => True
  | Fatal m => E prev m
  | Do c k => forall r, accounts E (Ev c r) (k r)
  end.

Section Coverage.

Context {libs : Libraries}.

(** The calls that create a user: the random bytes of its password, and
    the two commands. *)
Definition creates_user (c : call) : Prop :=
  match c with
  | RandRead _ => True
  | CliCommand (verb :: _) => verb = "create-user" \/ verb = "set-space-role"
  | _ => False
  end.

(** The calls that ask for a password. *)
Definition prompts (c : call) : Prop :=
  match c with
  | Printf _ | ReadPassword _ => True
  | _ => False
  end.

(** The messages of a run that has made no call. *)
Definition usage_message (args : list string) (m : string) : Prop :=
  flags_ParseArgs initial_opts args = Err m \/
  exists opts positional,
    parses args opts positional /\
    ((length positional <> 2 /\ m = invalid_arguments (length positional)) \/
     exists target rawurl,
       positional = [target; rawurl] /\
       ((exists e, url_Parse rawurl = Err e /\ m = "Invalid syslog drain URL: " +:+ e) \/
        (exists u, url_Parse rawurl = Ok u /\
           ((~ type_accepted opts /\ m = invalid_type (DrainType opts)) \/
            (type_accepted opts /\ AdapterType opts <> "service" /\
             AdapterType opts <> "application" /\ m = unsupported_adapter))))).

(** The message [m] of a run whose last call is [ev]: the error of the
    call; or, after the second lookup has failed, the message on the
    unknown source; or, after an empty password was read, the message on
    blank passwords. *)
Definition explained (target : string) (ev : event) (m : string) : Prop :=
  failure ev = Some m \/
  (exists e, ev = Ev (GetService target) (Err e) /\
             m = "unknown application or service " +:+ strconv_Quote target) \/
  (ev = Ev (ReadPassword 0) (Ok []) /\ m = "Password cannot be blank.").

(** The commands of the CLI that the drain command issues. *)
Definition verbs : list string :=
  ["create-user-provided-service"; "bind-service"; "create-user"; "set-space-role";
   "push"; "start"].

Definition known_command (c : call) : Prop :=
  match c with
  | CliCommand args => exists verb rest, args = verb :: rest /\ verb ∈ verbs
  | CliCommandWithoutTerminalOutput args =>
      exists name variable value,
        args = ["set-env"; name; variable; value] /\ variable ∈ variables
  | _ => True
  end.

(** The commands that would undo what a run has created. *)
Definition undoing : list string :=
  ["delete-service"; "unbind-service"; "delete-user"; "delete-space-role"; "delete";
   "unset-env"; "stop"].


(** A run starts with the lookup of the target as an application; only
    the generation of a name comes before it. *)
Definition lookup_first (opts : createDrainOpts) (target : string) (tr : list event)
    (out : outcome unit) : Prop :=
  if String.eqb (DrainName opts) "" then
    (exists e, tr = [Ev NewV4 (Err e)] /\ out = Aborted e) \/
    (exists g r rest, tr = Ev NewV4 (Ok g) :: Ev (GetApp target) r :: rest)
  else exists r rest, tr = Ev (GetApp target) r :: rest.

(** The lookups that resolve the source to [sid]. *)
Definition resolved (target sid : string) (pre : list event) : Prop :=
  (exists app, pre = [Ev (GetApp target) (Ok app)] /\ sid = Guid app) \/
  (exists e svc,
     pre = [Ev (GetApp target) (Err e); Ev (GetService target) (Ok svc)] /\ sid = Guid svc).

(** The calls that settle the credentials [user] and [pass], all of them
    answered without an error. *)
Definition settled (username password sid user pass : string) (cr : list event) : Prop :=
  if String.eqb username "" then
    exists data o org space o',
      user = "drain-" +:+ sid /\ pass = digest_password data /\
      cr = [Ev (RandRead 20) (Ok data);
            Ev (CliCommand ["create-user"; user; pass]) (Ok o);
            Ev GetCurrentOrg (Ok org); Ev GetCurrentSpace (Ok space);
            Ev (CliCommand ["set-space-role"; user; Name org; Name space; "SpaceDeveloper"])
               (Ok o')]
  else if String.eqb password "" then
    exists r input,
      input <> [] /\ user = username /\ pass = string_of_bytes input /\
      cr = [Ev (Printf ("Enter a password for " +:+ username +:+ ": ")) r;
            Ev (ReadPassword 0) (Ok input)]
  else user = username /\ pass = password /\ cr = [].

(** The one way the application adapter succeeds: the lookups, the
    session, the credentials, the download and the push, the question on
    certificates and the group id, the eleven variables, the start. *)
Definition forwarder_run (u : url.URL) (target name username password : string)
    (tr : list event) : Prop :=
  exists pre sid org space endpoint cr user pass downloaded o skip g settings o',
    resolved target sid pre /\
    settled username password sid user pass cr /\
    tr = pre ++
         [Ev GetCurrentOrg (Ok org); Ev GetCurrentSpace (Ok space);
          Ev ApiEndpoint (Ok endpoint)] ++
         cr ++
         [Ev (Download "syslog_forwarder") downloaded;
          Ev (CliCommand ["push"; name; "-p"; path_Dir downloaded; "-b"; "binary_buildpack";
                          "-c"; "./syslog_forwarder"; "--no-start"]) (Ok o);
          Ev IsSSLDisabled (Ok skip); Ev NewV4 (Ok g)] ++
         settings ++ [Ev (CliCommand ["start"; name]) (Ok o')] /\
    all_issued
      (envCommands name sid (hostName (Name org) (Name space) target) (uaaAddr endpoint)
         user pass (logCacheAddr endpoint) u skip g) settings.

End Coverage.

(** * The configuration of the acceptance tests *)

(** The struct [Config] starts from: the zero values, and the two
    timeouts of 10 and 45 seconds. *)
Definition fresh_config : acceptance.TestConfig :=
  acceptance.mkTestConfig "" "" "" false 10000000000%Z 45000000000%Z.

(** Calls of [Config] one after the other, one environment per call, up
    to the first that ends the process: how they end, the package variable
    after them, and the structs handed to [envstruct.Load]. *)
Fixpoint Config_calls (loads : list acceptance.loader) (config : acceptance.package)
  : list acceptance.ending * acceptance.package * list acceptance.TestConfig :=
  match loads with
  | [] => ([], config, [])
  | Load :: loads' =>
      let '(e, config', handed) := acceptance.Config Load config in
      match e with
      | acceptance.Exited _ => ([e], config', handed)
      | acceptance.Returned _ =>
          let '(es, config'', handed') := Config_calls loads' config' in
          (e :: es, config'', handed ++ handed')
      end
  end.

(** What one call gives in the environment [Load] when the variable is
    [nil]. *)
Definition loaded (Load : acceptance.loader) : acceptance.ending :=
  match Load fresh_config with
  | (_, Some err) =>
      acceptance.Exited
        ("failed to load drain test config%!(EXTRA " +:+ acceptance.type_name err +:+
         "=" +:+ acceptance.message err +:+ ")")
  | (c, None) => acceptance.Returned c
  end.

(** * The inputs of the concrete executions *)

#[local] Existing Instance Reference.libraries.

(** Argument vectors, after the tests. *)
Definition four_words : list string := ["one"; "two"; "three"; "four"].

Definition foo_adapter : list string :=
  ["--adapter-type"; "foo"; "app-name"; "syslog://a.com?a=b"].

Definition foo_only : list string := ["--adapter-type"; "foo"].

Definition garbage_type : list string :=
  ["--type"; "garbage"; "app-name"; "syslog://a.com"].

Definition plain_service : list string := ["app-name"; "syslog://a.com?a=b"].

Definition metrics_type : list string :=
  ["--type"; "metrics"; "--drain-name"; "my-drain"; "app-name"; "syslog://a.com"].

Definition metrics_over_logs : list string :=
  ["--type"; "metrics"; "--drain-name"; "my-drain"; "app-name";
   "syslog://a.com?drain-type=logs"].

Definition application_adapter : list string :=
  ["--adapter-type"; "application"; "--drain-name"; "my-drain";
   "--username"; "my-user"; "app-name"; "syslog://a.com?a=b"].

Definition application_generated : list string :=
  ["--adapter-type"; "application"; "app-name"; "syslog://a.com?a=b"].

(** Connections that fail, after the tests. *)
Definition push_fails : Stub.connection :=
  {| Stub.getAppGuid := "application-guid"; Stub.getAppError := None;
     Stub.getServiceGuid := "service-instance-guid"; Stub.getServiceError := None;
     Stub.currentOrgName := "org-name"; Stub.currentOrgError := None;
     Stub.currentSpaceName := "space-name"; Stub.currentSpaceError := None;
     Stub.apiEndpoint := "api.example.com"; Stub.apiEndpointError := None;
     Stub.sslDisabled := false;
     Stub.commandError := fun args =>
       if String.eqb (hd "" args) "push" then Some "push error" else None;
     Stub.downloadPath := "/downloaded/temp/dir/syslog_forwarder";
     Stub.passwordInput := Ok (bytes_of_string "some-password") |}.

Definition lookups (getApp getService : option error) (input : Result (list byte))
  : Stub.connection :=
  {| Stub.getAppGuid := "application-guid"; Stub.getAppError := getApp;
     Stub.getServiceGuid := "service-instance-guid"; Stub.getServiceError := getService;
     Stub.currentOrgName := "org-name"; Stub.currentOrgError := None;
     Stub.currentSpaceName := "space-name"; Stub.currentSpaceError := None;
     Stub.apiEndpoint := "api.example.com"; Stub.apiEndpointError := None;
     Stub.sslDisabled := false;
     Stub.commandError := fun _ => None;
     Stub.downloadPath := "/downloaded/temp/dir/syslog_forwarder";
     Stub.passwordInput := input |}.

(** Neither an application nor a service instance. *)
Definition nothing_known : Stub.connection :=
  lookups (Some "unknown app") (Some "unknown service") (Ok (bytes_of_string "some-password")).

(** A name with a double quote in it: [a], the double quote, [b]. *)
Definition quoted_name : string := String "a" (String dquote "b").

(** The application is unknown, the service instance is known. *)
Definition app_unknown : Stub.connection :=
  lookups (Some "unknown app") None (Ok (bytes_of_string "some-password")).

(** The password reader returns no byte. *)
Definition empty_input : Stub.connection := lookups None None (Ok []).

(** The application is unknown, the service instance is known, and
    nothing fails. *)
Definition longest_run : list string :=
  ["--adapter-type"; "application"; "app-name"; "syslog://a.com?a=b"].

(** The environment of a test run that sets the three required variables
    and nothing else. *)
Definition required_only : acceptance.loader :=
  fun c => (acceptance.mkTestConfig "admin" "secret" "example.com"
              (acceptance.SkipCertVerify c) (acceptance.DefaultTimeout c)
              (acceptance.AppPushTimeout c), None).

(** The options the parser leaves. *)
Definition options (adapterType drainName drainType username : string) : createDrainOpts :=
  mkOpts "" adapterType drainName drainType "" username "".

(** The parsed URLs. *)
Definition a_com (query : string) : url.URL := url.mkURL "syslog://a.com" false query "".

(** * Searching and replacing in strings *)

Section Strings.

Lemma app_String (c : ascii) (s t : string) : String c s +:+ t = String c (s +:+ t).
Proof. done. Qed.

Lemma append_empty (s : string) : s +:+ "" = s.
Proof.
  induction s as [|c s IH]; [done|].
  by rewrite app_String, IH.
Qed.

Lemma prefix_append (s t : string) : String.prefix s (s +:+ t) = true.
Proof.
  induction s as [|c s IH]; [by destruct t|].
  rewrite app_String. cbn. by destruct (ascii_dec c c).
Qed.

Lemma prefix_spec (old s : string) :
  String.prefix old s = true <-> exists post, s = old +:+ post.
Proof.
  split; [|intros [post ->]; apply prefix_append].
  revert old. induction s as [|c s IH]; intros [|c' old]; cbn; try done.
  - by exists "".
  - by exists (String c s).
  - destruct (ascii_dec c' c) as [->|]; [|done].
    intros [post ->]%IH. by exists post.
Qed.

Lemma from_append (s t : string) : strings.from (String.length s) (s +:+ t) = t.
Proof. induction s as [|c s IH]; [by destruct t|done]. Qed.

Lemma from_plus (a b : nat) (s : string) :
  strings.from (a + b) s = strings.from b (strings.from a s).
Proof.
  revert s. induction a as [|a IH]; intros s; [by destruct s|].
  destruct s as [|c s]; cbn; [by destruct b|apply IH].
Qed.

Lemma substring_append (s t : string) : String.substring 0 (String.length s) (s +:+ t) = s.
Proof.
  induction s as [|c s IH]; [by destruct t|].
  rewrite app_String. cbn. by rewrite IH.
Qed.

(** [strings.Index] finds the leftmost occurrence. *)
Lemma Index_Some (s old : string) j :
  strings.Index s old = Some j ->
  exists pre post, first_occurrence old s pre post /\ String.length pre = j.
Proof.
  revert j. induction s as [|c s IH]; intros j; cbn [strings.Index].
  - destruct (String.prefix old "") eqn:Hp; [|done].
    intros [= <-]. apply prefix_spec in Hp as [post Hp].
    exists "", post. repeat split; [done|]. intros; cbn; lia.
  - destruct (String.prefix old (String c s)) eqn:Hp.
    + intros [= <-]. apply prefix_spec in Hp as [post Hp].
      exists "", post. repeat split; [done|]. intros; cbn; lia.
    + destruct (strings.Index s old) as [j'|] eqn:Hj; [|done].
      intros [= <-]. destruct (IH j' eq_refl) as (pre & post & [-> Hmin] & <-).
      exists (String c pre), post. repeat split; try done.
      intros [|c' pre'] post' Heq.
      * rewrite Heq in Hp. change ("" +:+ old +:+ post') with (old +:+ post') in Hp.
        by rewrite prefix_append in Hp.
      * rewrite app_String in Heq. injection Heq as -> Heq.
        cbn. apply Hmin in Heq. lia.
Qed.

Lemma Index_None (s old : string) :
  strings.Index s old = None -> forall pre post, s <> pre +:+ old +:+ post.
Proof.
  induction s as [|c s IH]; cbn [strings.Index].
  - destruct (String.prefix old "") eqn:Hp; [done|]. intros _ [|c' pre] post Heq; [|done].
    rewrite Heq in Hp. change ("" +:+ old +:+ post) with (old +:+ post) in Hp.
    by rewrite prefix_append in Hp.
  - destruct (String.prefix old (String c s)) eqn:Hp; [done|].
    destruct (strings.Index s old) eqn:Hj; [done|]. intros _ [|c' pre] post Heq.
    + rewrite Heq in Hp. change ("" +:+ old +:+ post) with (old +:+ post) in Hp.
      by rewrite prefix_append in Hp.
    + rewrite app_String in Heq. injection Heq as -> Heq. by eapply IH.
Qed.

(** One replacement replaces the first occurrence. *)
Lemma Replace_once (s old new : string) :
  replaced_first old new s (strings.Replace s old new 1).
Proof.
  unfold strings.Replace.
  destruct (strings.Index s old) as [j|] eqn:Hj.
  - left. destruct (Index_Some _ _ _ Hj) as (pre & post & [-> Hmin] & <-).
    exists pre, post. split; [done|].
    rewrite substring_append, from_plus, from_append, from_append. done.
  - right. split; [by apply Index_None|done].
Qed.

End Strings.

(** * Executions: general facts *)

#[global] Arguments sha256.Sum256 : simpl never.
#[global] Arguments Sprintf : simpl never.
#[global] Arguments setEnv : simpl never.
#[global] Arguments hostName : simpl never.
#[global] Arguments uaaAddr : simpl never.
#[global] Arguments logCacheAddr : simpl never.

Section Executions.

Context {libs : Libraries}.

Import fmt.

(** The formats of the command. *)
Lemma Sprintf_error e : Sprintf "%s" [VError e] = e.
Proof. unfold Sprintf. cbn. apply append_empty. Qed.

Lemma Sprintf_invalid_arguments n :
  Sprintf "Invalid arguments, expected 2, got %d." [VInt (Z.of_nat n)] = invalid_arguments n.
Proof. reflexivity. Qed.

Lemma Sprintf_invalid_url e :
  Sprintf "Invalid syslog drain URL: %s" [VError e] = "Invalid syslog drain URL: " +:+ e.
Proof. unfold Sprintf. cbn. by rewrite append_empty. Qed.

Lemma Sprintf_invalid_type s : Sprintf "Invalid type: %s" [VString s] = invalid_type s.
Proof. unfold Sprintf, invalid_type. cbn. by rewrite append_empty. Qed.

Lemma hostName_dots org space target :
  hostName org space target = org +:+ "." +:+ space +:+ "." +:+ target.
Proof. unfold hostName, Sprintf. cbn. by rewrite append_empty. Qed.

Lemma Sprintf_drain s : Sprintf "drain-%s" [VString s] = "drain-" +:+ s.
Proof. unfold Sprintf. cbn. by rewrite append_empty. Qed.

Lemma Sprintf_prompt s :
  Sprintf "Enter a password for %s: " [VString s] = "Enter a password for " +:+ s +:+ ": ".
Proof. reflexivity. Qed.

Lemma Sprintf_blank : Sprintf "Password cannot be blank." [] = "Password cannot be blank.".
Proof. reflexivity. Qed.

Lemma Sprintf_hex bs : Sprintf "%x" [VBytes bs] = fmt.hex_bytes bs.
Proof. unfold Sprintf. cbn. apply append_empty. Qed.

Lemma Sprintf_unknown_source s :
  Sprintf "unknown application or service %q" [VString s]
    = "unknown application or service " +:+ strconv_Quote s.
Proof. unfold Sprintf. cbn. by rewrite append_empty. Qed.

Lemma Sprintf_unsupported :
  Sprintf "unsupported adapter type, must be 'service' or 'application'" [] = unsupported_adapter.
Proof. reflexivity. Qed.

(** Every program runs to an outcome against every world. *)
Lemma run_from_exec {A} (w : world) (p : prog A) past :
  exec p (fst (run_from w past p)) (snd (run_from w past p)).
Proof.
  revert past. induction p as [a|m|c k IH]; intros past; cbn; [done..|].
  specialize (IH (w past c) (past ++ [Ev c (w past c)])).
  destruct (run_from w (past ++ [Ev c (w past c)]) (k (w past c))) as [tr out].
  cbn in *. eauto.
Qed.

Lemma run_exec {A} (w : world) (p : prog A) : exec p (fst (run w p)) (snd (run w p)).
Proof. apply run_from_exec. Qed.

(** The first call of an execution. *)
Lemma exec_Do {A} c (k : resp c -> prog A) tr out :
  exec (Do c k) tr out -> exists r tr', tr = Ev c r :: tr' /\ exec (k r) tr' out.
Proof. done. Qed.

(** An execution of [p] followed by [f]: [p] aborts, or [f] takes over. *)
Lemma exec_bind {A B} (p : prog A) (f : A -> prog B) tr out :
  exec (bind p f) tr out <->
  (exists m, exec p tr (Aborted m) /\ out = Aborted m) \/
  (exists a t1 t2, exec p t1 (Done a) /\ exec (f a) t2 out /\ tr = t1 ++ t2).
Proof.
  revert tr. induction p as [a|m|c k IH]; intros tr; cbn.
  - split.
    + intros Hf. right. exists a, [], tr. done.
    + intros [(m & [_ [=]] & _)|(a' & t1 & t2 & [-> [= <-]] & Hf & ->)]. done.
  - split.
    + intros [-> ->]. left. by exists m.
    + intros [(m' & [-> [= <-]] & ->)|(a' & t1 & t2 & [_ [=]] & _)]. done.
  - split.
    + intros (r & tr' & -> & Hk). apply IH in Hk as [(m & Hk & ->)|(a & t1 & t2 & Hk & Hf & ->)].
      * left. exists m. split; [|done]. by exists r, tr'.
      * right. exists a, (Ev c r :: t1), t2. split; [|done]. by exists r, t1.
    + intros [(m & (r & tr' & -> & Hk) & ->)|(a & t1 & t2 & (r & tr' & -> & Hk) & Hf & ->)].
      * exists r, tr'. split; [done|]. apply IH. left. by exists m.
      * exists r, (tr' ++ t2). split; [done|]. apply IH. right. by exists a, tr', t2.
Qed.

(** Two events of the same call are equal when the answers are. *)
Lemma Ev_inj c (r1 r2 : resp c) : Ev c r1 = Ev c r2 -> r1 = r2.
Proof.
  intros Heq. injection Heq as Hr.
  apply (Eqdep_dec.inj_pair2_eq_dec call) in Hr; [done|].
  intros x y. destruct (decide (x = y)); auto.
Qed.

Lemma Ev_cons_inj c (r1 r2 : resp c) (l1 l2 : list event) :
  Ev c r1 :: l1 = Ev c r2 :: l2 -> r1 = r2 /\ l1 = l2.
Proof.
  intros Heq. split.
  - apply Ev_inj. congruence.
  - congruence.
Qed.

(** An execution is decided by the answers: two executions with the same
    trace end the same way. *)
Lemma exec_outcome {A} (p : prog A) tr out1 out2 :
  exec p tr out1 -> exec p tr out2 -> out1 = out2.
Proof.
  revert tr. induction p as [a|m|c k IH]; intros tr; cbn.
  - by intros [_ ->] [_ ->].
  - by intros [_ ->] [_ ->].
  - intros (r1 & t1 & -> & H1) (r2 & t2 & Heq & H2).
    injection Heq as Hr <-.
    apply (Eqdep_dec.inj_pair2_eq_dec call) in Hr as <-; [by eapply IH|].
    intros x y. destruct (decide (x = y)); auto.
Qed.

End Executions.

(** * The query string *)

Section UrlQuery.

Import url.

Lemma all_chars_app P s t : all_chars P s -> all_chars P t -> all_chars P (s +:+ t).
Proof.
  unfold all_chars. induction s as [|c s IH]; [done|].
  rewrite app_String. cbn. intros [? ?]%Forall_cons ?. constructor; auto.
Qed.

(** Escaping is undone by unescaping, one character at a time. *)
Lemma unescape_escape_char c s :
  QueryUnescape (QueryEscape (String c s)) = String c <$> QueryUnescape (QueryEscape s).
Proof. destruct c as [[] [] [] [] [] [] [] []]; reflexivity. Qed.

Lemma unescape_escape s : QueryUnescape (QueryEscape s) = Some s.
Proof.
  induction s as [|c s IH]; [done|].
  by rewrite unescape_escape_char, IH.
Qed.

(** Escaped text holds none of [&], [;] and [=]. *)
Lemma escape_plain s :
  all_chars not_separator (QueryEscape s) /\ all_chars not_equals (QueryEscape s).
Proof.
  unfold all_chars. induction s as [|c s [IH1 IH2]]; [by split; constructor|].
  destruct c as [[] [] [] [] [] [] [] []]; cbn;
    (split; repeat (constructor; [done|])); assumption.
Qed.

(** A piece free of separators, then a separator: the piece is the first field. *)
Lemma fields_piece p s :
  all_chars not_separator p ->
  fields is_separator (p +:+ String "&" s) = p :: fields is_separator s.
Proof.
  induction p as [|c p IH]; cbn; intros Hp; [done|].
  apply Forall_cons in Hp as [Hc Hp].
  rewrite app_String. cbn. by rewrite Hc, (IH Hp).
Qed.

Lemma fields_last p : all_chars not_separator p -> fields is_separator p = [p].
Proof.
  induction p as [|c p IH]; cbn; intros Hp; [done|].
  apply Forall_cons in Hp as [Hc Hp]. by rewrite Hc, (IH Hp).
Qed.

Lemma fields_concat ps :
  Forall (all_chars not_separator) ps ->
  fields is_separator (String.concat "&" ps) = if ps is [] then [""] else ps.
Proof.
  induction ps as [|p [|q ps] IH]; intros Hps; [done|..].
  - cbn. apply fields_last. by apply Forall_cons in Hps as [? _].
  - apply Forall_cons in Hps as [Hp Hps].
    change (String.concat "&" (p :: q :: ps))
      with (p +:+ String "&" (String.concat "&" (q :: ps))).
    by rewrite (fields_piece _ _ Hp), (IH Hps).
Qed.

Lemma cut_equals_pair k v : all_chars not_equals k -> cut_equals (k +:+ String "=" v) = (k, v).
Proof.
  induction k as [|c k IH]; intros Hk; [done|].
  apply Forall_cons in Hk as [Hc Hk].
  rewrite app_String. cbn. rewrite (IH Hk).
  by destruct (Ascii.eqb_spec c "=").
Qed.

Lemma pair_not_empty k v : String.eqb (k +:+ String "=" v) "" = false.
Proof. by destruct k. Qed.

Lemma parse_pair_encoded (m : Values) k v :
  parse_pair m (QueryEscape k +:+ String "=" (QueryEscape v)) = <[k := m !!! k ++ [v]]> m.
Proof.
  unfold parse_pair. rewrite pair_not_empty, cut_equals_pair by apply escape_plain.
  by rewrite !unescape_escape.
Qed.

Lemma foldl_encode_key (v m : Values) k :
  foldl parse_pair m (encode_key v k) =
  if v !!! k is [] then m else <[k := m !!! k ++ v !!! k]> m.
Proof.
  unfold encode_key. generalize (v !!! k). intros xs.
  revert m. induction xs as [|x xs IH]; intros m; [done|].
  cbn [map foldl]. rewrite parse_pair_encoded, IH.
  destruct xs as [|y xs]; [done|].
  by rewrite lookup_total_insert_eq, insert_insert_eq, <- (assoc_L (++)).
Qed.

Lemma encode_key_pieces (v : Values) k : Forall (all_chars not_separator) (encode_key v k).
Proof.
  unfold encode_key. apply Forall_map, Forall_forall. intros x _. cbn.
  apply all_chars_app; [apply escape_plain|].
  constructor; [done|apply escape_plain].
Qed.

(** Parsing the pieces of the keys [ks], one key after the other. *)
Lemma foldl_keys (v m : Values) ks k :
  NoDup ks -> (forall k', k' ∈ ks -> m !! k' = None) ->
  foldl parse_pair m (concat (map (encode_key v) ks)) !! k =
  if decide (k ∈ ks) then (if v !!! k is [] then None else Some (v !!! k)) else m !! k.
Proof.
  revert m. induction ks as [|k0 ks IH]; intros m Hnd Hm; [done|].
  apply NoDup_cons in Hnd as [Hk0 Hnd].
  cbn [map concat]. rewrite foldl_app, foldl_encode_key, IH; [|done|].
  - destruct (decide (k = k0)) as [->|Hne].
    + rewrite decide_False, decide_True by set_solver.
      destruct (v !!! k0) eqn:Hv; [apply Hm; set_solver|].
      rewrite lookup_insert_eq. unfold lookup_total, map_lookup_total.
      by rewrite (Hm k0) by set_solver.
    + destruct (decide (k ∈ ks)) as [Hin|Hin].
      * by rewrite decide_True by set_solver.
      * rewrite decide_False by set_solver.
        destruct (v !!! k0); [done|]. by rewrite lookup_insert_ne.
  - intros k' Hk'. destruct (v !!! k0); [apply Hm; set_solver|].
    rewrite lookup_insert_ne by set_solver. apply Hm. set_solver.
Qed.

Lemma sorted_keys_spec (v : Values) k : k ∈ sorted_keys v <-> is_Some (v !! k).
Proof.
  unfold sorted_keys. rewrite merge_sort_Permutation.
  rewrite list_elem_of_fmap. split.
  - intros ([k' x] & -> & Hin%elem_of_map_to_list). by exists x.
  - intros [x Hx]. exists (k, x). split; [done|]. by apply elem_of_map_to_list.
Qed.

Lemma sorted_keys_NoDup (v : Values) : NoDup (sorted_keys v).
Proof. unfold sorted_keys. rewrite merge_sort_Permutation. apply NoDup_fst_map_to_list. Qed.

(** The keys are written in the order of [sort.Strings]. *)
Lemma sorted_keys_Sorted (v : Values) : Sorted String.le (sorted_keys v).
Proof. apply Sorted_merge_sort. apply _. Qed.

(** [ParseQuery] undoes [Encode] on a map without empty value lists. *)
Lemma parseQuery_Encode (v : Values) : populated v -> parseQuery (Encode v) = v.
Proof.
  intros Hv. unfold parseQuery, Encode.
  rewrite fields_concat
    by (apply Forall_concat, Forall_map, Forall_forall; intros; apply encode_key_pieces).
  assert (Hf : forall l : list string,
    foldl parse_pair ∅ (if l is [] then [""] else l) = foldl parse_pair ∅ l) by (by intros []).
  rewrite Hf. apply map_eq. intros k.
  rewrite foldl_keys; [|apply sorted_keys_NoDup|done].
  destruct (decide (k ∈ sorted_keys v)) as [Hin|Hin].
  - apply sorted_keys_spec in Hin as [xs Hxs].
    rewrite (lookup_total_correct _ _ _ Hxs), Hxs.
    destruct xs; [by destruct (Hv _ _ Hxs)|done].
  - rewrite lookup_empty. destruct (v !! k) eqn:Hk; [|done].
    destruct Hin. apply sorted_keys_spec. eauto.
Qed.

Lemma parse_pair_populated (m : Values) piece : populated m -> populated (parse_pair m piece).
Proof.
  intros Hm. unfold parse_pair. destruct (String.eqb piece ""); [done|].
  destruct (cut_equals piece) as [k v].
  destruct (QueryUnescape k); [|done]. destruct (QueryUnescape v); [|done].
  apply map_Forall_insert_2; [|done]. by destruct (m !!! s).
Qed.

Lemma parseQuery_populated q : populated (parseQuery q).
Proof.
  unfold parseQuery. generalize (fields is_separator q). intros l.
  assert (Hg : forall m : Values, populated m -> populated (foldl parse_pair m l)).
  { induction l as [|p l IH]; intros m Hm; [done|]. cbn. apply IH.
    by apply parse_pair_populated. }
  apply Hg, map_Forall_empty.
Qed.

(** The query of the annotated URL, parsed: the query of the URL, with
    [drain-type] set to the one value. *)
Lemma Query_with_drain_type u drainType :
  Query (with_drain_type u drainType) = <["drain-type" := [drainType]]> (Query u).
Proof.
  unfold with_drain_type, Query, Set_. cbn. apply parseQuery_Encode.
  apply map_Forall_insert_2; [done|apply parseQuery_populated].
Qed.

(** A map that is not empty does not encode to the empty text. *)
Lemma Encode_not_empty (v : Values) k x xs : v !! k = Some (x :: xs) -> Encode v <> "".
Proof.
  intros Hk He.
  assert (Hin : k ∈ sorted_keys v) by (apply sorted_keys_spec; eauto).
  unfold Encode in He.
  apply list_elem_of_split in Hin as (l1 & l2 & Hl). rewrite Hl in He.
  rewrite map_app, concat_app in He. cbn [map concat] in He.
  unfold encode_key at 2 in He. rewrite (lookup_total_correct _ _ _ Hk) in He.
  cbn [map] in He.
  assert (Hc : forall ps q qs, String.concat "&" (ps ++ (QueryEscape k +:+ String "=" q) :: qs) <> "").
  { clear. intros ps q qs. induction ps as [|p [|p' ps] IH].
    - destruct qs; cbn; by destruct (QueryEscape k).
    - cbn. destruct p; [|done]. destruct qs; by destruct (QueryEscape k).
    - change (String.concat "&" ((p :: p' :: ps) ++ ?x :: qs))
        with (p +:+ String "&" (String.concat "&" ((p' :: ps) ++ x :: qs))).
      by destruct p. }
  by apply Hc in He.
Qed.

End UrlQuery.

(** Walking through an execution: the next call and its answer, the end of
    the run, or a test the program makes. *)
Ltac destruct_answer r :=
  let T := type of r in
  let T' := eval cbn in T in
  lazymatch T' with
  | Result _ => destruct r
  | _ => idtac
  end.

Ltac exec_step H :=
  first
    [ let r := fresh "r" in
      let tr' := fresh "tr" in
      destruct H as (r & tr' & -> & H); destruct_answer r
    | destruct H as [-> ->]
    | match type of H with
      | context [if ?b then _ else _] => destruct b eqn:?
      end ].

Ltac exec_all H := repeat (cbn in H; exec_step H).

(** The calls of an execution up to the call [stop], the program from
    there on kept as a program. *)
Ltac exec_until stop H :=
  repeat (
    cbn [bind mbind prog_bind invoke must Fatalf] in H;
    lazymatch type of H with
    | exec (Do ?c _) _ _ =>
        lazymatch c with
        | stop => fail
        | _ =>
            let r := fresh "r" in
            let tr' := fresh "tr" in
            apply exec_Do in H as (r & tr' & -> & H); destruct_answer r
        end
    | exec (Ret _) _ _ => destruct H as [-> ->]
    | exec (Fatal _) _ _ => destruct H as [-> ->]
    | context [if ?b then _ else _] => destruct b eqn:?
    end).

(** One call of an execution, the program that follows kept as a program. *)
Ltac exec_next H r tr' :=
  cbn [bind mbind prog_bind invoke must] in H;
  apply exec_Do in H as (r & tr' & -> & H);
  cbn [bind mbind prog_bind invoke must] in H.

(** * The command before it dispatches *)

Section Dispatch.

Context {libs : Libraries}.

Import fmt.

Lemma CreateDrain_short args opts positional :
  parses args opts positional -> length positional <> 2 ->
  CreateDrain args = Fatal (invalid_arguments (length positional)).
Proof.
  intros Hp Hn. unfold CreateDrain. rewrite Hp. cbn.
  destruct positional as [|a0 [|a1 [|a2 rest]]]; cbn in *; done.
Qed.

Lemma CreateDrain_dispatch args opts target rawurl u :
  parses args opts [target; rawurl] -> url_Parse rawurl = Ok u ->
  CreateDrain args =
    (u' ← annotate u (DrainType opts);
     if String.eqb (AdapterType opts) "service" then
       name ← serviceName opts; createAndBindService u' target name
     else if String.eqb (AdapterType opts) "application" then
       name ← serviceName opts;
       pushSyslogForwarder u' target name (Username opts) (Password opts)
     else Fatal unsupported_adapter).
Proof.
  intros Hp Hu. unfold CreateDrain. rewrite Hp. cbn. rewrite Hu. reflexivity.
Qed.

Lemma annotate_accepted u opts :
  type_accepted opts -> annotate u (DrainType opts) = Ret (drain_url u (DrainType opts)).
Proof.
  unfold annotate, drain_url, with_drain_type. intros [->| Hv]; [done|].
  rewrite Hv. by destruct (String.eqb (DrainType opts) "").
Qed.

Lemma annotate_refused u opts :
  ~ type_accepted opts -> annotate u (DrainType opts) = Fatal (invalid_type (DrainType opts)).
Proof.
  unfold annotate, type_accepted. intros Hn.
  destruct (String.eqb_spec (DrainType opts) "") as [He|_]; [by destruct Hn; left|].
  destruct (validDrainType (DrainType opts)) eqn:Hv; [by destruct Hn; right|].
  cbn. unfold Fatalf. by rewrite Sprintf_invalid_type.
Qed.

(** Two lower-case hexadecimal digits for each byte. *)
Lemma hex_byte_digits b :
  exists c1 c2, hex_byte b = String c1 (String c2 "") /\
                lower_hex c1 = true /\ lower_hex c2 = true.
Proof. destruct b; eexists _, _; (split; [reflexivity|]); split; reflexivity. Qed.

Lemma hex_then_bytes bs n k s :
  hex_then (2 * length bs + n) k (hex_bytes bs +:+ s) = hex_then n k s.
Proof.
  induction bs as [|b bs IH]; [done|].
  destruct (hex_byte_digits b) as (c1 & c2 & Hb & H1 & H2).
  cbn [hex_bytes length]. rewrite Hb.
  replace (2 * S (length bs) + n) with (S (S (2 * length bs + n))) by lia.
  change ((String c1 (String c2 "") +:+ hex_bytes bs) +:+ s)
    with (String c1 (String c2 (hex_bytes bs +:+ s))).
  cbn [hex_then]. by rewrite H1, H2, IH.
Qed.

Lemma slice_length (g : uuid.UUID) i j : j <= 16 -> length (uuid.slice g i j) = j - i.
Proof.
  intros Hj. unfold uuid.slice.
  rewrite length_take, length_drop, length_vec_to_list. lia.
Qed.

Lemma hex_then_group n bs k s :
  length bs = n -> hex_then (n + n) k (hex_bytes bs +:+ s) = k s.
Proof.
  intros <-. replace (length bs + length bs) with (2 * length bs + 0) by lia.
  by rewrite hex_then_bytes.
Qed.

Lemma dash_then_dash k s : dash_then k ("-" +:+ s) = k s.
Proof. done. Qed.

(** A UUID prints in the pattern of the tests. *)
Lemma String_pattern (g : uuid.UUID) : uuid_pattern (uuid.String_ g) = true.
Proof.
  unfold uuid_pattern, uuid.String_.
  rewrite (hex_then_group 4) by (rewrite slice_length; lia).
  rewrite dash_then_dash, (hex_then_group 2) by (rewrite slice_length; lia).
  rewrite dash_then_dash, (hex_then_group 2) by (rewrite slice_length; lia).
  rewrite dash_then_dash, (hex_then_group 2) by (rewrite slice_length; lia).
  rewrite dash_then_dash, <- (append_empty (hex_bytes _)).
  by rewrite (hex_then_group 6) by (rewrite slice_length; lia).
Qed.

Lemma generated_name_pattern (g : uuid.UUID) :
  cf_drain_pattern ("cf-drain-" +:+ uuid.String_ g) = true.
Proof.
  unfold cf_drain_pattern. rewrite prefix_append.
  change 9 with (String.length "cf-drain-").
  rewrite from_append. apply String_pattern.
Qed.

(** The name: the option, or a generated one. *)
Lemma exec_serviceName opts tr out :
  exec (serviceName opts) tr out ->
  (exists name, named opts tr name /\ out = Done name) \/
  (DrainName opts = "" /\ exists e, tr = [Ev NewV4 (Err e)] /\ out = Aborted e).
Proof.
  unfold serviceName, named. intros Hx.
  destruct (String.eqb_spec (DrainName opts) "") as [He|He]; cbn in Hx.
  - exec_all Hx.
    + left. eexists. split; [|done]. right. split; [done|].
      eexists. split; [done|]. split; [done|]. apply generated_name_pattern.
    + right. rewrite Sprintf_error. eauto.
  - destruct Hx as [-> ->]. left. eexists. split; [|done]. by left.
Qed.

End Dispatch.

(** * Properties of every call of a program *)

Section Invariants.

Context {libs : Libraries}.

Lemma every_call_exec {A} (Q : call -> Prop) (p : prog A) tr out :
  every_call Q p -> exec p tr out -> Forall (fun ev => Q (ev_call ev)) tr.
Proof.
  revert tr. induction p as [a|m|c k IH]; intros tr; cbn.
  - by intros _ [-> _].
  - by intros _ [-> _].
  - intros [Hc Hk] (r & tr' & -> & Hx). constructor; [done|]. by eapply IH.
Qed.

Lemma every_call_bind {A B} (Q : call -> Prop) (p : prog A) (f : A -> prog B) :
  every_call Q p -> (forall a, every_call Q (f a)) -> every_call Q (bind p f).
Proof.
  intros Hp Hf. induction p as [a|m|c k IH]; cbn in *; [done..|].
  destruct Hp as [Hc Hk]. split; [done|]. intros r. by apply IH.
Qed.

Lemma every_call_must {A} (Q : call -> Prop) (r : Result A) : every_call Q (must r).
Proof. by destruct r. Qed.

Lemma every_call_setEnv (Q : call -> Prop) cmds :
  Forall (fun cmd => Q (CliCommandWithoutTerminalOutput cmd)) cmds ->
  every_call Q (setEnv cmds).
Proof.
  unfold setEnv. induction 1 as [|cmd cmds Hc _ IH]; cbn; [done|].
  split; [done|]. intros [o|e]; cbn; [apply IH|done].
Qed.

Lemma aborts_on_failure_exec {A} exempt (p : prog A) tr out :
  aborts_on_failure exempt p -> exec p tr out -> fail_fast exempt tr out.
Proof.
  revert tr. induction p as [a|m|c k IH]; intros tr; cbn [aborts_on_failure exec].
  - by intros _ [-> _] [|?] ? ? ?.
  - by intros _ [-> _] [|?] ? ? ?.
  - intros Hp (r & tr' & -> & Hx). specialize (Hp r). intros [|i] ev e Hi Hf Hn.
    + injection Hi as <-. rewrite Hf in Hp.
      destruct Hp as [Hk|[? _]]; [|done]. rewrite Hk in Hx. by destruct Hx as [-> ->].
    + cbn in Hi. destruct (failure (Ev c r)) as [e'|].
      * destruct Hp as [Hk|[_ Hk]].
        -- rewrite Hk in Hx. by destruct Hx as [-> _].
        -- destruct (IH r tr' Hk Hx i ev e) as [Hl ->]; [done..|].
           split; [|done]. cbn. by rewrite Hl.
      * destruct (IH r tr' Hp Hx i ev e) as [Hl ->]; [done..|].
        split; [|done]. cbn. by rewrite Hl.
Qed.

Lemma aborts_on_failure_bind {A B} exempt (p : prog A) (f : A -> prog B) :
  aborts_on_failure exempt p -> (forall a, aborts_on_failure exempt (f a)) ->
  aborts_on_failure exempt (bind p f).
Proof.
  intros Hp Hf. induction p as [a|m|c k IH]; cbn [aborts_on_failure bind] in *; [done..|].
  intros r. specialize (Hp r). destruct (failure (Ev c r)).
  - destruct Hp as [->|[? ?]]; [by left|right; split; [done|by apply IH]].
  - by apply IH.
Qed.

Lemma aborts_on_failure_mono {A} (exempt exempt' : event -> Prop) (p : prog A) :
  (forall ev, exempt ev -> exempt' ev) ->
  aborts_on_failure exempt p -> aborts_on_failure exempt' p.
Proof.
  intros Hm. induction p as [a|m|c k IH]; cbn [aborts_on_failure]; [done..|].
  intros Hp r. specialize (Hp r). destruct (failure (Ev c r)); [|by apply IH].
  destruct Hp as [?|[? ?]]; [by left|right; split; [by apply Hm|by apply IH]].
Qed.

(** The loop over the environment stops at the first command that fails. *)
Lemma aborts_on_failure_setEnv exempt cmds : aborts_on_failure exempt (setEnv cmds).
Proof.
  unfold setEnv. induction cmds as [|cmd cmds IH]; cbn; [done|].
  intros [o|e]; cbn; [apply IH|]. left. unfold Fatalf. by rewrite Sprintf_error.
Qed.

(** The loop over the environment, as a trace. *)
Lemma exec_setEnv cmds tr out :
  exec (setEnv cmds) tr out ->
  one_by_one cmds tr out \/ (all_issued cmds tr /\ out = Done tt).
Proof.
  unfold setEnv. revert tr. induction cmds as [|cmd cmds IH]; intros tr; cbn.
  - intros [-> ->]. right. by repeat split.
  - intros ([o|e] & tr' & -> & Hx); cbn in Hx.
    + apply IH in Hx as [(n & cmd' & e & Hn & Hc & Hs & Hl & ->)|[[Hc Hs] ->]].
      * left. exists (S n), cmd', e. split; [done|].
        split; [cbn [map take ev_call]; f_equal; exact Hc|].
        split; [by constructor|]. split; [|done].
        destruct tr'; [done|exact Hl].
      * right. split; [|done]. split; [cbn [map ev_call]; f_equal; exact Hc|by constructor].
    + destruct Hx as [-> ->]. left. exists 0, cmd, e. rewrite Sprintf_error.
      repeat split; done.
Qed.

End Invariants.

(** Walking through a program: every call it can make. *)
Ltac calls_all leaf :=
  repeat match goal with
  | |- True => exact I
  | |- _ /\ (forall r, _) =>
      split; [leaf | let r := fresh "r" in intros r; destruct_answer r]
  | |- every_call _ (if ?b then _ else _) => destruct b eqn:?
  | |- every_call _ (mbind _ (setEnv _)) =>
      apply every_call_bind;
      [apply every_call_setEnv; repeat (constructor; [leaf|]); constructor|intros []]
  | |- every_call _ _ => progress cbn
  | |- every_call _ ?p =>
      match p with context [if ?b then _ else _] => destruct b eqn:? end
  end.

(** Walking through a program: what follows each answer. *)
Ltac aborts_all exempted :=
  repeat match goal with
  | |- True => exact I
  | |- forall r, _ => let r := fresh "r" in intros r; destruct_answer r; cbn
  | |- _ = Fatal _ \/ _ =>
      first [ left; unfold Fatalf; rewrite ?Sprintf_error; reflexivity
            | right; split; [exempted|] ]
  | |- aborts_on_failure _ (mbind _ (setEnv _)) =>
      apply aborts_on_failure_bind; [apply aborts_on_failure_setEnv|intros []]
  | |- aborts_on_failure _ _ => progress cbn
  | |- aborts_on_failure _ ?p =>
      match p with context [if ?b then _ else _] => destruct b eqn:? end
  end.

(** * The credentials of the forwarder *)

Section Credentials.

Context {libs : Libraries}.
Import fmt.

Lemma Sum256_length data : length (sha256.Sum256 data) = 32.
Proof. unfold sha256.Sum256. cbv zeta. by rewrite !length_app. Qed.

(** A digest prints as sixty-four hexadecimal digits. *)
Lemma digest_hex data :
  hex_then 64 (String.eqb "") (fmt.hex_bytes (sha256.Sum256 data)) = true.
Proof.
  rewrite <- (append_empty (fmt.hex_bytes _)).
  change 64 with (2 * 32 + 0). rewrite <- (Sum256_length data).
  by rewrite hex_then_bytes.
Qed.

Lemma digest_not_empty data : String.eqb (fmt.hex_bytes (sha256.Sum256 data)) "" = false.
Proof.
  pose proof (digest_hex data) as Hd.
  by destruct (fmt.hex_bytes (sha256.Sum256 data)).
Qed.

(** The run does not prompt for the password of a user it has created. *)
Lemma created_not_prompted sid data :
  negb (String.eqb (Sprintf "drain-%s" [VString sid]) "") &&
  String.eqb (Sprintf "%x" [VBytes (sha256.Sum256 data)]) "" = false.
Proof. rewrite Sprintf_hex, digest_not_empty. apply andb_false_r. Qed.

(** The run from the download on. *)
Lemma provisioned_exec name sid host uaa user pass lc u tr out :
  exec (downloaded ← invoke (Download "syslog_forwarder");
        invoke (CliCommand ["push"; name; "-p"; path_Dir downloaded; "-b";
                            "binary_buildpack"; "-c"; "./syslog_forwarder"; "--no-start"])
          ≫= must;;
        skipCertVerify ← invoke IsSSLDisabled ≫= must;
        groupName ← invoke NewV4 ≫= must;
        setEnv (envCommands name sid host uaa user pass lc u skipCertVerify groupName);;
        invoke (CliCommand ["start"; name]) ≫= must;;
        Ret tt) tr out ->
  provisioned name user pass tr out.
Proof.
  intros Hx. split; [|split].
  - exec_next Hx r more. by exists r, more.
  - eapply (every_call_exec (credentials_used user pass)); [|exact Hx].
    unfold envCommands.
    calls_all ltac:(split; intros ? ? [=]; by subst).
  - intros Hout. unfold setEnv, envCommands in Hx.
    exec_all Hx; try discriminate Hout.
    split; cbn; eauto 20 using list_elem_of_here, list_elem_of_further.
Qed.

End Credentials.

(** * The command as a whole *)

Section Whole.

Context {libs : Libraries}.
Import fmt.

Lemma every_call_annotate (Q : call -> Prop) u drainType : every_call Q (annotate u drainType).
Proof.
  unfold annotate.
  destruct (negb (String.eqb drainType "")); [|done].
  by destruct (negb (validDrainType drainType)).
Qed.

(** Every call of the command is a call of [serviceName] or of one of the
    two adapters. *)
Lemma every_call_CreateDrain (Q : call -> Prop) args :
  (forall opts, every_call Q (serviceName opts)) ->
  (forall opts positional u target name,
     parses args opts positional -> AdapterType opts = "service" ->
     every_call Q (createAndBindService u target name)) ->
  (forall opts positional u target name,
     parses args opts positional -> AdapterType opts = "application" ->
     every_call Q (pushSyslogForwarder u target name (Username opts) (Password opts))) ->
  every_call Q (CreateDrain args).
Proof.
  intros Hn Hs Ha. unfold CreateDrain.
  destruct (flags_ParseArgs initial_opts args) as [[opts positional]|e] eqn:Hp; cbn; [|done].
  destruct positional as [|target [|rawurl [|? ?]]]; cbn; [done..| |done].
  destruct (url_Parse rawurl) as [u|e]; cbn; [|done].
  apply every_call_bind; [apply every_call_annotate|]. intros u'.
  destruct (String.eqb_spec (AdapterType opts) "service") as [Hs'|_];
    [|destruct (String.eqb_spec (AdapterType opts) "application") as [Ha'|_]; [|done]];
    (apply every_call_bind; [apply Hn|intros name]).
  - by eapply Hs.
  - by eapply Ha.
Qed.

Lemma annotate_valid u t :
  t <> "" -> validDrainType t = true -> annotate u t = Ret (with_drain_type u t).
Proof.
  intros Hn Hv. unfold annotate. apply String.eqb_neq in Hn. by rewrite Hn, Hv.
Qed.

(** The run from the question on certificates on, when it succeeds. *)
Lemma exec_environment name u sid host uaa user pass lc rest :
  exec (skipCertVerify ← invoke IsSSLDisabled ≫= must;
        groupName ← invoke NewV4 ≫= must;
        setEnv (envCommands name sid host uaa user pass lc u skipCertVerify groupName);;
        invoke (CliCommand ["start"; name]) ≫= must;;
        Ret tt) rest (Done tt) ->
  exists skip g settings o,
    rest = Ev IsSSLDisabled (Ok skip) :: Ev NewV4 (Ok g) :: settings ++
           [Ev (CliCommand ["start"; name]) (Ok o)] /\
    all_issued (envCommands name sid host uaa user pass lc u skip g) settings.
Proof.
  intros Hx.
  exec_next Hx r t1. destruct r as [skip|e]; [|cbn in Hx; by destruct Hx as [_ [=]]].
  exec_next Hx r t2. destruct r as [g|e]; [|cbn in Hx; by destruct Hx as [_ [=]]].
  cbn [bind mbind prog_bind invoke must] in Hx.
  apply exec_bind in Hx as [(m & _ & [=])|([] & settings & after & Hl & Hs & ->)].
  apply exec_setEnv in Hl as [(? & ? & ? & _ & _ & _ & _ & [=])|[Hl _]].
  exec_next Hs r t3. destruct r as [o|e]; cbn in Hs; destruct Hs as [-> [=]].
  by exists skip, g, settings, o.
Qed.

End Whole.

(** * Generated names *)

Section Names.

Import fmt.

Lemma append_inj_length (s1 s2 t1 t2 : string) :
  String.length s1 = String.length s2 -> s1 +:+ t1 = s2 +:+ t2 -> s1 = s2 /\ t1 = t2.
Proof.
  revert s2. induction s1 as [|c s1 IH]; intros [|c' s2] Hl Heq; try done.
  rewrite !app_String in Heq. injection Heq as <- Heq. injection Hl as Hl.
  by destruct (IH _ Hl Heq) as [<- <-].
Qed.

Lemma hex_digit_inj (m n : N) :
  (m < 16)%N -> (n < 16)%N -> hex_digit m = hex_digit n -> m = n.
Proof.
  intros Hm Hn.
  assert (Hc : forall k : N, (k < 16)%N -> exists i, i < 16 /\ k = N.of_nat i).
  { intros k Hk. exists (N.to_nat k). lia. }
  apply Hc in Hm as (i & Hi & ->). apply Hc in Hn as (j & Hj & ->).
  do 16 (destruct i as [|i]; [do 16 (destruct j as [|j]; [done|]); lia|]). lia.
Qed.

Lemma hex_byte_inj (b1 b2 : byte) : hex_byte b1 = hex_byte b2 -> b1 = b2.
Proof.
  unfold hex_byte. intros [= H1 H2].
  pose proof (Byte.to_N_bounded b1). pose proof (Byte.to_N_bounded b2).
  apply hex_digit_inj in H1; [|apply N.Div0.div_lt_upper_bound; lia..].
  apply hex_digit_inj in H2; [|apply N.mod_lt; lia..].
  assert (Hn : Byte.to_N b1 = Byte.to_N b2).
  { rewrite (N.div_mod' (Byte.to_N b1) 16), (N.div_mod' (Byte.to_N b2) 16). congruence. }
  apply (inj Some). rewrite <- !Byte.of_to_N. by rewrite Hn.
Qed.

Lemma hex_bytes_inj (l1 l2 : list byte) :
  length l1 = length l2 -> hex_bytes l1 = hex_bytes l2 -> l1 = l2.
Proof.
  revert l2. induction l1 as [|b1 l1 IH]; intros [|b2 l2] Hl Heq; try done.
  cbn [hex_bytes] in Heq. apply append_inj_length in Heq as [Hb Heq]; [|done].
  apply hex_byte_inj in Hb as <-. f_equal. apply IH; [by injection Hl|done].
Qed.

Lemma hex_bytes_length l : String.length (hex_bytes l) = 2 * length l.
Proof.
  induction l as [|b l IH]; [done|]. cbn [hex_bytes length]. unfold hex_byte.
  change (String ?c1 (String ?c2 "") +:+ ?s) with (String c1 (String c2 s)).
  cbn [String.length]. lia.
Qed.

(** A UUID is told by the text it prints to. *)
Lemma String_inj (g1 g2 : uuid.UUID) : uuid.String_ g1 = uuid.String_ g2 -> g1 = g2.
Proof.
  unfold uuid.String_. intros Heq.
  repeat match type of Heq with
  | hex_bytes ?a +:+ _ = hex_bytes ?b +:+ _ =>
      let H := fresh "Hs" in
      apply append_inj_length in Heq as [H Heq];
        [apply hex_bytes_inj in H; [|by rewrite !slice_length by lia]
        |by rewrite !hex_bytes_length, !slice_length by lia];
      try (apply (append_inj_length "-" "-") in Heq as [_ Heq]; [|done])
  end.
  apply hex_bytes_inj in Heq; [|by rewrite !slice_length by lia].
  apply vec_to_list_inj2.
  unfold uuid.slice in *. cbn [Nat.sub] in *.
  rewrite <- (take_drop 4 (vec_to_list g1)), <- (take_drop 4 (vec_to_list g2)).
  rewrite drop_0 in Hs. f_equal; [done|].
  rewrite <- (take_drop 2 (drop 4 (vec_to_list g1))), <- (take_drop 2 (drop 4 (vec_to_list g2))).
  f_equal; [done|]. rewrite !drop_drop. cbn [Nat.add].
  rewrite <- (take_drop 2 (drop 6 (vec_to_list g1))), <- (take_drop 2 (drop 6 (vec_to_list g2))).
  f_equal; [done|]. rewrite !drop_drop. cbn [Nat.add].
  rewrite <- (take_drop 2 (drop 8 (vec_to_list g1))), <- (take_drop 2 (drop 8 (vec_to_list g2))).
  f_equal; [done|]. rewrite !drop_drop. cbn [Nat.add].
  rewrite <- (take_ge (drop 10 (vec_to_list g1)) 6), <- (take_ge (drop 10 (vec_to_list g2)) 6);
    [done|rewrite length_drop, length_vec_to_list; lia..].
Qed.

End Names.

(** * The number of calls *)

Section Bounds.

Context {libs : Libraries}.

Lemma at_most_exec {A} n (p : prog A) tr out : at_most n p -> exec p tr out -> length tr <= n.
Proof.
  revert n tr. induction p as [a|m|c k IH]; intros n tr; cbn [at_most exec].
  - intros _ [-> _]. cbn. lia.
  - intros _ [-> _]. cbn. lia.
  - destruct n as [|n]; [done|]. intros Hp (r & tr' & -> & Hx).
    cbn. apply le_n_S. by eapply IH.
Qed.

Lemma at_most_mono {A} m n (p : prog A) : m <= n -> at_most m p -> at_most n p.
Proof.
  revert m n. induction p as [a|msg|c k IH]; intros m n Hmn; cbn [at_most]; [done..|].
  destruct m as [|m]; [done|]. destruct n as [|n]; [lia|].
  intros Hp r. eapply (IH r m n); [lia|done].
Qed.

Lemma at_most_bind {A B} m n (p : prog A) (f : A -> prog B) :
  at_most m p -> (forall a, at_most n (f a)) -> at_most (m + n) (bind p f).
Proof.
  revert m. induction p as [a|msg|c k IH]; intros m; cbn [at_most bind].
  - intros _ Hf. eapply at_most_mono; [|apply Hf]. lia.
  - done.
  - destruct m as [|m]; [done|]. intros Hp Hf r. by apply IH.
Qed.

Lemma at_most_setEnv cmds : at_most (length cmds) (setEnv cmds).
Proof.
  unfold setEnv. induction cmds as [|cmd cmds IH]; [done|].
  cbn. intros [o|e]; cbn; [apply IH|done].
Qed.

End Bounds.

(** Walking through a program: the calls it has left. *)
Ltac bounded_all :=
  repeat match goal with
  | |- True => exact I
  | H : negb _ && String.eqb (Sprintf "%x" _) "" = true |- _ =>
      by rewrite created_not_prompted in H
  | |- forall r, _ => let r := fresh "r" in intros r; destruct_answer r
  | |- at_most _ (mbind _ (setEnv _)) =>
      eapply at_most_mono; [|eapply (at_most_bind _ 1); [apply at_most_setEnv|intros []]];
      [cbn; lia|]
  | |- at_most _ (if ?b then _ else _) => destruct b eqn:?
  | |- at_most _ _ => progress cbn
  | |- at_most _ ?p =>
      match p with context [if ?b then _ else _] => destruct b eqn:? end
  end.

Section Lengths.

Context {libs : Libraries}.

Lemma at_most_serviceName opts : at_most 1 (serviceName opts).
Proof. unfold serviceName. bounded_all. Qed.

Lemma at_most_createAndBindService u target name :
  at_most 3 (createAndBindService u target name).
Proof. unfold createAndBindService. bounded_all. Qed.

Lemma at_most_pushSyslogForwarder u target name username password :
  at_most 26 (pushSyslogForwarder u target name username password).
Proof.
  unfold pushSyslogForwarder, sourceID, createUser, envCommands. bounded_all.
Qed.

End Lengths.

(** * The messages of a run *)

#[global] Arguments explained : simpl never.

Section Messages.

Context {libs : Libraries}.

Lemma accounts_exec {A} E prev (p : prog A) tr m :
  accounts E prev p -> exec p tr (Aborted m) ->
  exists ev, last (prev :: tr) = Some ev /\ E ev m.
Proof.
  revert prev tr. induction p as [a|m'|c k IH]; intros prev tr; cbn [accounts exec].
  - by intros _ [_ [=]].
  - intros He [-> [= <-]]. by exists prev.
  - intros Hp (r & tr' & -> & Hx). destruct (IH r _ _ (Hp r) Hx) as (ev & Hl & He).
    exists ev. split; [|done]. by rewrite last_cons_cons.
Qed.

End Messages.

(** Walking through a program: the message of each way it ends. *)
Ltac accounts_all :=
  repeat match goal with
  | |- True => exact I
  | H : negb _ && String.eqb (Sprintf "%x" _) "" = true |- _ =>
      by rewrite created_not_prompted in H
  | |- forall r, _ => let r := fresh "r" in intros r; destruct_answer r
  | |- explained _ (Ev (ReadPassword _) (Ok ?input)) _ =>
      destruct input;
      [right; right; split; [reflexivity|apply Sprintf_blank]|discriminate]
  | |- explained _ _ _ =>
      first [ left; cbn; by rewrite Sprintf_error
            | right; left; eexists; split; [reflexivity|apply Sprintf_unknown_source] ]
  | |- accounts _ _ (if ?b then _ else _) => destruct b eqn:?
  | |- accounts _ _ _ => progress cbn
  | |- accounts _ _ ?p =>
      match p with context [if ?b then _ else _] => destruct b eqn:? end
  end.

(** * The claims of the specification *)

Section Claims.

Context {libs : Libraries}.

Import fmt.

(** C8.  Whatever the options, when the positional arguments left by the
    flag parser are not exactly two, the command makes no call at all and
    ends with [Invalid arguments, expected 2, got <n>.], [n] being their
    number in decimal. *)
Theorem argument_count_checked args opts positional :
  parses args opts positional ->
  length positional <> 2 ->
  exec (CreateDrain args) [] (Aborted (invalid_arguments (length positional))) /\
  forall tr out,
    exec (CreateDrain args) tr out ->
    rejected (invalid_arguments (length positional)) tr out.
Proof.
  intros Hp Hn. rewrite (CreateDrain_short _ _ _ Hp Hn). cbn. by split.
Qed.

(** C9, amended.  With two positional arguments, a URL that parses and a
    [--type] that is absent or valid, an adapter type that is neither
    [service] nor [application] makes the command end with the message on
    unsupported adapter types, without a single call.  The adapter type of
    the options the parser starts from is [service]. *)
Theorem unsupported_adapter_rejected args opts target rawurl u :
  parses args opts [target; rawurl] ->
  url_Parse rawurl = Ok u ->
  type_accepted opts ->
  AdapterType opts <> "service" ->
  AdapterType opts <> "application" ->
  AdapterType initial_opts = "service" /\
  exec (CreateDrain args) [] (Aborted unsupported_adapter) /\
  forall tr out, exec (CreateDrain args) tr out -> rejected unsupported_adapter tr out.
Proof.
  intros Hp Hu Ht Hs Ha. split; [done|].
  rewrite (CreateDrain_dispatch _ _ _ _ _ Hp Hu), (annotate_accepted _ _ Ht).
  apply String.eqb_neq in Hs, Ha. cbn. rewrite Hs, Ha. cbn. by split.
Qed.

(** C1, amended.  With two positional arguments, a URL that parses, the
    adapter type [service] and a [--type] that is absent or valid, every
    run first settles the name ([--drain-name], or [cf-drain-] and a fresh
    UUID; a failing generator ends the run with its error), then looks the
    target up as an application (a failure ends the run with the error of
    the lookup), then issues [create-user-provided-service <name> -l <url>]
    and [bind-service <target> <name>], in this order, the second only
    after the first has succeeded; [<url>] is the drain URL, with the drain
    type in its query when there is one. *)
Theorem service_adapter_contract args opts target rawurl u :
  parses args opts [target; rawurl] ->
  url_Parse rawurl = Ok u ->
  AdapterType opts = "service" ->
  type_accepted opts ->
  (forall tr out,
     exec (CreateDrain args) tr out -> service_invocation opts target u tr out) /\
  (forall w : world,
     service_invocation opts target u
       (fst (run w (CreateDrain args))) (snd (run w (CreateDrain args)))).
Proof.
  intros Hp Hu Hs Ht.
  assert (Hall : forall tr out,
    exec (CreateDrain args) tr out -> service_invocation opts target u tr out).
  { intros tr out.
    rewrite (CreateDrain_dispatch _ _ _ _ _ Hp Hu), (annotate_accepted _ _ Ht), Hs.
    change (exec (bind (serviceName opts)
                    (createAndBindService (drain_url u (DrainType opts)) target))
              tr out -> service_invocation opts target u tr out).
    rewrite exec_bind.
    intros [(m & Hn & ->)|(name & pre & rest & Hn & Hx & ->)];
      apply exec_serviceName in Hn as [(name' & Hn & [=])|(He & e & -> & [=])];
      subst.
    - left. split; [done|]. eauto.
    - right. exists pre, name', rest. split; [done|]. split; [done|].
      unfold createAndBindService in Hx. exec_all Hx; rewrite ?Sprintf_error;
        unfold service_adapter, create_service, bind_service; eauto 10. }
  split; [done|]. intros w. apply Hall, run_exec.
Qed.

(** The drain URL in the commands of the two adapters. *)
Lemma createAndBindService_carries u target name :
  every_call (carries (url.String_ u)) (createAndBindService u target name).
Proof.
  unfold createAndBindService.
  calls_all ltac:(split; [intros ? [=]; subst; eauto|intros ? ? [=]]).
Qed.

Lemma pushSyslogForwarder_carries u target name username password :
  every_call (carries (url.String_ u)) (pushSyslogForwarder u target name username password).
Proof.
  unfold pushSyslogForwarder, sourceID, createUser, envCommands.
  calls_all ltac:(split; [intros ? [=]|intros ? ? [=]; subst; eauto]).
Qed.

Lemma serviceName_carries text opts : every_call (carries text) (serviceName opts).
Proof.
  unfold serviceName. calls_all ltac:(split; [intros ? [=]|intros ? ? [=]]).
Qed.

(** C3, amended.  With two positional arguments, a URL that parses and a
    [--type] that is given (not empty): the value is accepted exactly when
    it is [logs], [metrics] or [all].  An accepted value is set in the
    query: the query of the URL is parsed, [drain-type] is given the one
    value (in place of the values it may have had), and the query is
    written back with its keys in sorted order, so that every other
    parameter that parsed keeps its values; the commands that mention the
    drain URL mention this one.  Any other value ends the run, before any
    call, with [Invalid type: <value>]. *)
Theorem drain_type_annotation args opts target rawurl u :
  parses args opts [target; rawurl] ->
  url_Parse rawurl = Ok u ->
  DrainType opts <> "" ->
  (validDrainType (DrainType opts) = true <->
   DrainType opts ∈ ["logs"; "metrics"; "all"]) /\
  (validDrainType (DrainType opts) = true ->
   url.Query (with_drain_type u (DrainType opts))
     = <["drain-type" := [DrainType opts]]> (url.Query u) /\
   (forall k, k <> "drain-type" ->
      url.Query (with_drain_type u (DrainType opts)) !! k = url.Query u !! k) /\
   url.String_ (with_drain_type u (DrainType opts))
     = url.before_query u +:+
       String "?" (url.Encode (<["drain-type" := [DrainType opts]]> (url.Query u))) +:+
       url.after_query u /\
   Sorted String.le
     (url.sorted_keys (<["drain-type" := [DrainType opts]]> (url.Query u))) /\
   forall tr out,
     exec (CreateDrain args) tr out ->
     Forall (fun ev => carries (url.String_ (with_drain_type u (DrainType opts))) (ev_call ev)) tr) /\
  (validDrainType (DrainType opts) = false ->
   forall tr out, exec (CreateDrain args) tr out -> rejected (invalid_type (DrainType opts)) tr out).
Proof.
  intros Hp Hu Hne. split; [|split].
  - unfold validDrainType. rewrite !orb_true_iff, !String.eqb_eq. set_solver.
  - intros Hv. split; [apply Query_with_drain_type|]. split.
    { intros k Hk. by rewrite Query_with_drain_type, lookup_insert_ne. }
    split.
    { unfold url.String_, with_drain_type, url.Set_. cbn.
      destruct (String.eqb_spec (url.Encode (<["drain-type":=[DrainType opts]]> (url.Query u))) "")
        as [He|_]; [|by rewrite orb_true_r].
      by apply (Encode_not_empty _ "drain-type" (DrainType opts) []) in He;
        [|apply lookup_insert_eq]. }
    split; [apply sorted_keys_Sorted|].
    intros tr out.
    rewrite (CreateDrain_dispatch _ _ _ _ _ Hp Hu), annotate_accepted by (by right).
    unfold drain_url. apply String.eqb_neq in Hne. rewrite Hne.
    apply every_call_exec. cbn.
    destruct (String.eqb (AdapterType opts) "service");
      [|destruct (String.eqb (AdapterType opts) "application"); [|done]];
      (apply every_call_bind; [apply serviceName_carries|intros name]).
    + apply createAndBindService_carries.
    + apply pushSyslogForwarder_carries.
  - intros Hv tr out.
    rewrite (CreateDrain_dispatch _ _ _ _ _ Hp Hu), annotate_refused.
    + cbn. done.
    + unfold type_accepted. rewrite Hv. intros [?|?]; done.
Qed.

Lemma serviceName_aborts exempt opts : aborts_on_failure exempt (serviceName opts).
Proof. unfold serviceName. aborts_all fail. Qed.

Lemma createAndBindService_aborts exempt u target name :
  aborts_on_failure exempt (createAndBindService u target name).
Proof. unfold createAndBindService. aborts_all fail. Qed.

Lemma pushSyslogForwarder_aborts u target name username password :
  aborts_on_failure source_lookup (pushSyslogForwarder u target name username password).
Proof.
  unfold pushSyslogForwarder, sourceID, createUser.
  aborts_all ltac:(exact I).
Qed.

(** C5, amended.  Whatever call fails, the lookups of the application
    adapter apart (an application that is not found is looked up as a
    service instance, and two failed lookups end the run with a message of
    its own), the failed call is the last call of the run and its error is
    the message of the run: the run stops there, and what earlier steps
    have created stays. *)
Theorem failures_abort args opts positional :
  parses args opts positional ->
  forall tr out,
    exec (CreateDrain args) tr out ->
    fail_fast (fun ev => AdapterType opts = "application" /\ source_lookup ev) tr out.
Proof.
  intros Hp tr out. apply aborts_on_failure_exec.
  unfold CreateDrain. rewrite Hp. cbn.
  destruct positional as [|target [|rawurl [|? ?]]]; cbn; [done..| |done].
  destruct (url_Parse rawurl) as [u|e]; cbn; [|done].
  unfold annotate.
  destruct (negb (String.eqb (DrainType opts) "")); cbn;
    [destruct (negb (validDrainType (DrainType opts))); cbn; [done|]|];
    (destruct (String.eqb_spec (AdapterType opts) "service") as [Hs|Hs];
      [|destruct (String.eqb_spec (AdapterType opts) "application") as [Ha|Ha]; [|done]];
      (apply aborts_on_failure_bind; [apply serviceName_aborts|intros name])).
  all: try apply createAndBindService_aborts.
  all: eapply aborts_on_failure_mono; [|apply pushSyslogForwarder_aborts]; by intros ev.
Qed.

Lemma pushSyslogForwarder_named u target name username password :
  every_call (forwarder_named name) (pushSyslogForwarder u target name username password).
Proof.
  unfold pushSyslogForwarder, sourceID, createUser, envCommands.
  calls_all ltac:(split;
    [ intros ? ? [=] [?|?]; subst; try discriminate; eauto
    | intros ? [=]; subst; eauto ]).
Qed.

Lemma pushSyslogForwarder_deployed u target name username password tr out :
  exec (pushSyslogForwarder u target name username password) tr out ->
  out = Done tt -> deployed name tr.
Proof.
  intros Hx Hout.
  unfold pushSyslogForwarder, sourceID, createUser, setEnv, envCommands in Hx.
  exec_all Hx; try discriminate Hout.
  all: unfold deployed; cbn; split; [eexists; eauto using list_elem_of_here, list_elem_of_further|done].
Qed.

(** C10.  On the application adapter (two positional arguments, a URL that
    parses, a [--type] that is absent or valid), the name of the forwarder
    comes about as the name of the service instance does: [--drain-name]
    when given, otherwise [cf-drain-] and a UUID generated for this run (a
    failing generator ends the run).  Every [push], every [set-env] and
    the [start] of the run carry this name, and a run that succeeds has
    issued them all. *)
Theorem forwarder_name args opts target rawurl u :
  parses args opts [target; rawurl] ->
  url_Parse rawurl = Ok u ->
  AdapterType opts = "application" ->
  type_accepted opts ->
  (forall tr out, exec (CreateDrain args) tr out -> forwarder_invocation opts tr out) /\
  (forall w : world,
     forwarder_invocation opts
       (fst (run w (CreateDrain args))) (snd (run w (CreateDrain args)))).
Proof.
  intros Hp Hu Ha Ht.
  assert (Hall : forall tr out,
    exec (CreateDrain args) tr out -> forwarder_invocation opts tr out).
  { intros tr out.
    rewrite (CreateDrain_dispatch _ _ _ _ _ Hp Hu), (annotate_accepted _ _ Ht), Ha.
    change (exec (bind (serviceName opts) (fun name =>
                    pushSyslogForwarder (drain_url u (DrainType opts)) target name
                      (Username opts) (Password opts)))
              tr out -> forwarder_invocation opts tr out).
    rewrite exec_bind.
    intros [(m & Hn & ->)|(name & pre & rest & Hn & Hx & ->)];
      apply exec_serviceName in Hn as [(name' & Hn & [=])|(He & e & -> & [=])];
      subst.
    - left. split; [done|]. eauto.
    - right. exists pre, name', rest. split; [done|]. split; [done|]. split.
      + eapply every_call_exec; [apply pushSyslogForwarder_named|done].
      + by eapply pushSyslogForwarder_deployed. }
  split; [done|]. intros w. apply Hall, run_exec.
Qed.

(** C6, amended.  The application adapter first looks the name up as an
    application; when that succeeds no service instance is looked up and
    the id of the application is the source id of the run.  When it
    fails the name is looked up as a service instance, whose id is then
    the source id.  When both fail the run ends with [unknown application
    or service] and the name as the verb [%q] prints it, that is through
    [strconv.Quote]: between double quotes when [strconv.Quote] finds
    nothing to escape in it. *)
Theorem source_resolved u target name username password tr out :
  exec (pushSyslogForwarder u target name username password) tr out ->
  source_resolution strconv_Quote target tr out /\
  (strconv_Quote target = in_quotes target -> source_resolution in_quotes target tr out).
Proof.
  intros Hx.
  assert (Hr : source_resolution strconv_Quote target tr out).
  { unfold pushSyslogForwarder, sourceID in Hx.
    exec_next Hx r tr'. destruct r as [app|e].
    - left. exists app, tr'. split; [done|].
      eapply (every_call_exec
                (fun c => no_service_lookup c /\ identified_by (Guid app) c)); [|exact Hx].
      unfold createUser, envCommands.
      calls_all ltac:(split; [by intros ? [=]|];
        split; [intros ? ? [=]; subst; eauto|intros ? [=]; subst;
          rewrite ?Sprintf_drain; eauto]).
    - exec_next Hx r tr''. destruct r as [svc|e'].
      + right; left. exists e, svc, tr''. split; [done|].
        eapply (every_call_exec (identified_by (Guid svc))); [|exact Hx].
        unfold createUser, envCommands.
        calls_all ltac:(split; [intros ? ? [=]; subst; eauto|intros ? [=]; subst;
          rewrite ?Sprintf_drain; eauto]).
      + right; right. cbn in Hx. destruct Hx as [-> ->]. exists e, e'. split; [done|].
        by rewrite Sprintf_unknown_source. }
  split; [done|]. intros Hq. unfold source_resolution in *. by rewrite <- Hq.
Qed.

(** C7.  In a run of the application adapter, let [org], [space] and
    [endpoint] be what the session answered for the current organization,
    the current space and the API endpoint.  Then every command that sets
    [SOURCE_HOST_NAME] sets it to [org.space.target], every command that
    sets [UAA_URL] sets it to the endpoint with its first [api.] replaced
    by [uaa.], every command that sets [LOG_CACHE_HTTP_ADDR] to the
    endpoint with its first [api.] replaced by [log-cache.] (the endpoint
    itself when it has no [api.]); a run that succeeds has issued the three
    commands.  For [org-name], [space-name], [app-name] and
    [api.example.com] the values are [org-name.space-name.app-name],
    [uaa.example.com] and [log-cache.example.com]. *)
Theorem session_values u target name username password tr out :
  exec (pushSyslogForwarder u target name username password) tr out ->
  (forall org space endpoint rest,
     session_of tr = Some (org, space, endpoint, rest) ->
     Forall (fun ev => derived_from (Name org) (Name space) endpoint target (ev_call ev)) rest) /\
  (out = Done tt ->
   exists org space endpoint rest uaa lc,
     session_of tr = Some (org, space, endpoint, rest) /\
     ["set-env"; name; "SOURCE_HOST_NAME"; Name org +:+ "." +:+ Name space +:+ "." +:+ target]
       ∈ cliCommandWithoutTerminalOutputArgs rest /\
     ["set-env"; name; "UAA_URL"; uaa] ∈ cliCommandWithoutTerminalOutputArgs rest /\
     replaced_first "api." "uaa." endpoint uaa /\
     ["set-env"; name; "LOG_CACHE_HTTP_ADDR"; lc] ∈ cliCommandWithoutTerminalOutputArgs rest /\
     replaced_first "api." "log-cache." endpoint lc) /\
  hostName "org-name" "space-name" "app-name" = "org-name.space-name.app-name" /\
  uaaAddr "api.example.com" = "uaa.example.com" /\
  logCacheAddr "api.example.com" = "log-cache.example.com".
Proof.
  intros Hx. split; [|split; [|by repeat split]].
  - unfold pushSyslogForwarder, sourceID in Hx.
    exec_next Hx r t1. destruct r as [app|e]; cbn [bind mbind prog_bind invoke must] in Hx.
    + exec_next Hx r t2. destruct r as [org|e];
        [|cbn in Hx; destruct Hx as [-> ->]; intros ? ? ? ? Hs; cbn in Hs; discriminate Hs].
      cbn [bind mbind prog_bind invoke must] in Hx.
      exec_next Hx r t3. destruct r as [space|e];
        [|cbn in Hx; destruct Hx as [-> ->]; intros ? ? ? ? Hs; cbn in Hs; discriminate Hs].
      cbn [bind mbind prog_bind invoke must] in Hx.
      exec_next Hx r t4. destruct r as [endpoint|e];
        [|cbn in Hx; destruct Hx as [-> ->]; intros ? ? ? ? Hs; cbn in Hs; discriminate Hs].
      cbn [bind mbind prog_bind invoke must] in Hx.
      intros ? ? ? ? Hs. cbn in Hs. injection Hs as <- <- <- <-.
      eapply (every_call_exec (derived_from (Name org) (Name space) endpoint target));
        [|exact Hx].
      unfold createUser, envCommands.
      calls_all ltac:(split; [intros ? ? [=]; subst; by rewrite ?hostName_dots|];
        split; intros ? ? [=]; subst; eexists; (split; [reflexivity|apply Replace_once])).
    + exec_next Hx r t2. destruct r as [svc|e'];
        [|cbn in Hx; destruct Hx as [-> ->]; intros ? ? ? ? Hs; cbn in Hs; discriminate Hs].
      cbn [bind mbind prog_bind invoke must] in Hx.
      exec_next Hx r t3. destruct r as [org|e'];
        [|cbn in Hx; destruct Hx as [-> ->]; intros ? ? ? ? Hs; cbn in Hs; discriminate Hs].
      cbn [bind mbind prog_bind invoke must] in Hx.
      exec_next Hx r t4. destruct r as [space|e'];
        [|cbn in Hx; destruct Hx as [-> ->]; intros ? ? ? ? Hs; cbn in Hs; discriminate Hs].
      cbn [bind mbind prog_bind invoke must] in Hx.
      exec_next Hx r t5. destruct r as [endpoint|e'];
        [|cbn in Hx; destruct Hx as [-> ->]; intros ? ? ? ? Hs; cbn in Hs; discriminate Hs].
      cbn [bind mbind prog_bind invoke must] in Hx.
      intros ? ? ? ? Hs. cbn in Hs. injection Hs as <- <- <- <-.
      eapply (every_call_exec (derived_from (Name org) (Name space) endpoint target));
        [|exact Hx].
      unfold createUser, envCommands.
      calls_all ltac:(split; [intros ? ? [=]; subst; by rewrite ?hostName_dots|];
        split; intros ? ? [=]; subst; eexists; (split; [reflexivity|apply Replace_once])).
  - intros Hout.
    unfold pushSyslogForwarder, sourceID, createUser, setEnv, envCommands in Hx.
    exec_all Hx; try discriminate Hout.
    all: eexists _, _, _, _, _, _; split; [reflexivity|]; cbn; rewrite hostName_dots.
    all: split; [eauto 20 using list_elem_of_here, list_elem_of_further|].
    all: split; [eauto 20 using list_elem_of_here, list_elem_of_further|].
    all: split; [apply Replace_once|].
    all: split; [eauto 20 using list_elem_of_here, list_elem_of_further|apply Replace_once].
Qed.

(** The run from the question on certificates to the start of the
    forwarder. *)
Lemma environment_phase_exec name u sid host uaa user pass lc rest out :
  exec (skipCertVerify ← invoke IsSSLDisabled ≫= must;
        groupName ← invoke NewV4 ≫= must;
        setEnv (envCommands name sid host uaa user pass lc u skipCertVerify groupName);;
        invoke (CliCommand ["start"; name]) ≫= must;;
        Ret tt) rest out ->
  environment_phase name u rest out.
Proof.
  intros Hx.
  exec_next Hx r t1. destruct r as [skip|e];
    [|cbn in Hx; destruct Hx as [-> ->]; left; rewrite Sprintf_error; eauto].
  exec_next Hx r t2. destruct r as [g|e];
    [|cbn in Hx; destruct Hx as [-> ->]; right; left; rewrite Sprintf_error; eauto].
  right; right. exists skip, g, sid, host, uaa, user, pass, lc.
  cbn [bind mbind prog_bind invoke must] in Hx.
  apply exec_bind in Hx as [(m & Hl & ->)|([] & settings & after & Hl & Hs & ->)];
    apply exec_setEnv in Hl as [Hl|[Hl [=]]].
  - exists t2, []. rewrite app_nil_r. split; [done|]. by left.
  - by destruct Hl as (? & ? & ? & _ & _ & _ & _ & [=]).
  - exists settings, after. split; [done|]. right. split; [done|].
    exec_next Hs r t3. cbn in Hs. exists r.
    destruct r as [o|e]; destruct Hs as [-> ->]; rewrite ?Sprintf_error; done.
Qed.

(** C2.  In a run of the application adapter, after the push has
    succeeded: the run asks whether certificate verification is disabled
    and generates the group id (a failure of either ends the run with its
    error), then issues eleven [set-env] commands on the forwarder, for
    [SOURCE_ID], [SOURCE_HOST_NAME], [UAA_URL], [CLIENT_ID] (the value
    [cf]), [USERNAME], [PASSWORD], [LOG_CACHE_HTTP_ADDR], [SYSLOG_URL],
    [SKIP_CERT_VERIFY], [GROUP_NAME] (the id just generated) and
    [DRAIN_SCOPE] (the value [single]), in this order, each only after the
    one before has succeeded.  A command that fails is the last call of the
    run, and its error the message of the run; when all have succeeded the
    forwarder is started. *)
Theorem environment_set u target name username password tr out :
  exec (pushSyslogForwarder u target name username password) tr out ->
  (forall rest, after_push tr = Some rest -> environment_phase name u rest out) /\
  (forall sid host uaa user pass lc skip g,
     map (fun cmd => cmd !! 2) (envCommands name sid host uaa user pass lc u skip g)
       = map Some variables /\
     Forall (fun cmd => take 2 cmd = ["set-env"; name] /\ length cmd = 4)
       (envCommands name sid host uaa user pass lc u skip g) /\
     envCommands name sid host uaa user pass lc u skip g !! 3
       = Some ["set-env"; name; "CLIENT_ID"; "cf"] /\
     envCommands name sid host uaa user pass lc u skip g !! 9
       = Some ["set-env"; name; "GROUP_NAME"; uuid.String_ g] /\
     envCommands name sid host uaa user pass lc u skip g !! 10
       = Some ["set-env"; name; "DRAIN_SCOPE"; "single"]).
Proof.
  intros Hx. split.
  - unfold pushSyslogForwarder, sourceID, createUser in Hx.
    exec_until IsSSLDisabled Hx;
      intros rest Hp; cbn in Hp; try discriminate Hp.
    all: injection Hp as <-; eapply environment_phase_exec; exact Hx.
  - intros. cbn. repeat split. repeat (constructor; [done|]). constructor.
Qed.

(** C4, amended.  In a run of the application adapter, after the source was
    resolved to [sid] and the organization, the space and the endpoint
    were read.  With no user name: twenty random bytes are read, the user
    [drain-sid] is created with the hexadecimal SHA-256 digest of the bytes
    as password (sixty-four digits), the organization and the space are
    read again and the user is made a [SpaceDeveloper] of them; the run
    does not prompt, and goes on with these credentials.  With a user name
    and no password: the run prompts and reads a password; it ends there
    with the message [Password cannot be blank.], with the final period,
    exactly when the input is empty, and any other input is the password
    it goes on with.  A call that fails ends the run with its error. *)
Theorem credentials_determined username password :
  credentials_contract "Password cannot be blank." username password /\
  (forall data : vec byte 20,
     hex_then 64 (String.eqb "") (digest_password data) = true /\
     length (sha256.Sum256 (vec_to_list data)) = 32).
Proof.
  split; [|intros data; split; [apply digest_hex|apply Sum256_length]].
  intros u target name tr out Hx.
  unfold pushSyslogForwarder, sourceID, createUser in Hx.
  exec_until (Download "syslog_forwarder") Hx.
  all: try match goal with
       | H : _ && _ = true |- _ => by rewrite created_not_prompted in H
       end.
  all: intros sid org space endpoint rest Hi Hs; cbn in Hi, Hs;
    try discriminate Hi; try discriminate Hs.
  all: injection Hi as <-; injection Hs as <- <- <- <-.
  all: unfold credentials, user_creation, password_prompt, digest_password.
  all: try match goal with
       | H : String.eqb ?u "" = false, H' : negb (String.eqb ?u "") && _ = _ |- _ =>
           rewrite H in H'; cbn in H'
       end.
  all: repeat match goal with H : String.eqb _ _ = _ |- _ => rewrite H end.
  all: try match goal with
       | H : String.eqb (string_of_bytes ?input) "" = _ |- _ =>
           destruct input; cbn in H; try discriminate H
       end.
  all: rewrite ?Sprintf_drain, ?Sprintf_hex, ?Sprintf_prompt, ?Sprintf_error,
         ?Sprintf_blank in *.
  all: cbn [bind mbind prog_bind invoke must Fatalf] in *.
  all: repeat (eexists _, _; split; [reflexivity|]; cbn [checked]).
  all: try done.
  all: try (eapply provisioned_exec; exact Hx).
Qed.

(** X1.  With two positional arguments of which the second does not parse
    as a URL, the command makes no call and ends with [Invalid syslog drain
    URL: ] followed by the error of the parser. *)
Theorem invalid_url_rejected args opts target rawurl e :
  parses args opts [target; rawurl] ->
  url_Parse rawurl = Err e ->
  exec (CreateDrain args) [] (Aborted ("Invalid syslog drain URL: " +:+ e)) /\
  forall tr out,
    exec (CreateDrain args) tr out -> rejected ("Invalid syslog drain URL: " +:+ e) tr out.
Proof.
  intros Hp Hu.
  assert (Hc : CreateDrain args = Fatal ("Invalid syslog drain URL: " +:+ e)).
  { unfold CreateDrain. rewrite Hp. cbn. rewrite Hu. unfold Fatalf.
    by rewrite Sprintf_invalid_url. }
  rewrite Hc. split; [done|]. by intros tr out [-> ->].
Qed.

(** X2.  [buildDrainName] names a drain as [serviceName] names the service
    instance of the options: the name given when there is one, otherwise
    [cf-drain-] and a fresh UUID. *)
Theorem buildDrainName_serviceName (f : createDrainOpts) :
  buildDrainName (DrainName f) = serviceName f /\
  (DrainName f <> "" -> buildDrainName (DrainName f) = Ret (DrainName f)) /\
  (DrainName f = "" ->
   forall tr out,
     exec (buildDrainName (DrainName f)) tr out ->
     (exists e, tr = [Ev NewV4 (Err e)] /\ out = Aborted e) \/
     (exists g, tr = [Ev NewV4 (Ok g)] /\
                out = Done ("cf-drain-" +:+ uuid.String_ g) /\
                cf_drain_pattern ("cf-drain-" +:+ uuid.String_ g) = true)).
Proof.
  split; [done|]. split.
  - intros Hn. unfold buildDrainName. apply String.eqb_neq in Hn. by rewrite Hn.
  - intros Hn tr out. unfold buildDrainName. rewrite Hn. cbn.
    intros ([g|e] & tr' & -> & Hx); cbn in Hx; destruct Hx as [-> ->].
    + right. exists g. split; [done|]. split; [done|]. apply generated_name_pattern.
    + left. exists e. by rewrite Sprintf_error.
Qed.

End Claims.

(** * Further properties *)

Section Coverage.

Context {libs : Libraries}.
Import fmt.

(** X3.  Whatever the arguments, a run of the command either makes no call
    and ends with a message, or starts with the lookup of the target as an
    application, on both adapters; only the generation of the name, when
    no [--drain-name] is given, comes before the lookup. *)
Theorem lookup_comes_first args tr out :
  exec (CreateDrain args) tr out ->
  (tr = [] /\ exists m, out = Aborted m) \/
  (exists opts target rawurl,
     parses args opts [target; rawurl] /\ lookup_first opts target tr out).
Proof.
  unfold CreateDrain, parses.
  destruct (flags_ParseArgs initial_opts args) as [[opts positional]|e]; cbn;
    [|intros [-> ->]; left; eauto].
  destruct positional as [|target [|rawurl [|? ?]]]; cbn;
    try (intros [-> ->]; left; by eauto).
  destruct (url_Parse rawurl) as [u|e]; cbn; [|intros [-> ->]; left; by eauto].
  intros Hx. apply exec_bind in Hx as [(m & Hx & ->)|(u' & t1 & t2 & Hu & Hx & ->)].
  { left. split; [|by eauto]. revert Hx. unfold annotate.
    destruct (negb _); [destruct (negb _)|]; cbn; by intros [-> _]. }
  assert (t1 = []) as ->.
  { revert Hu. unfold annotate.
    destruct (negb _); [destruct (negb _)|]; cbn; by intros [-> _]. }
  cbn [app].
  assert (Hl : forall (f : string -> prog unit),
    (forall name t o, exec (f name) t o -> exists r rest, t = Ev (GetApp target) r :: rest) ->
    exec (name ← serviceName opts; f name) t2 out -> lookup_first opts target t2 out).
  { intros f Hf Hn. unfold serviceName, lookup_first in *.
    destruct (String.eqb (DrainName opts) ""); cbn in Hn.
    - destruct Hn as ([g|e] & t & -> & Hn); cbn in Hn.
      + right. apply Hf in Hn as (r & rest & ->). eauto.
      + left. destruct Hn as [-> ->]. rewrite Sprintf_error. eauto.
    - by apply Hf in Hn. }
  destruct (String.eqb (AdapterType opts) "service");
    [|destruct (String.eqb (AdapterType opts) "application")].
  - right. exists opts, target, rawurl. split; [done|]. eapply Hl; [|exact Hx].
    intros name t o Ht. unfold createAndBindService in Ht. exec_next Ht r rest. eauto.
  - right. exists opts, target, rawurl. split; [done|]. eapply Hl; [|exact Hx].
    intros name t o Ht. unfold pushSyslogForwarder, sourceID in Ht. exec_next Ht r rest. eauto.
  - left. cbn in Hx. destruct Hx as [-> ->]. eauto.
Qed.


(** X5.  Whatever the arguments and whatever fails, the commands a run
    gives the CLI are [create-user-provided-service], [bind-service],
    [create-user], [set-space-role], [push] and [start], and, without
    terminal output, [set-env] with a name, one of the eleven variables
    and a value.  No command undoes what an earlier one has created, and
    [set-env] is never run with terminal output. *)
Theorem commands_known args tr out :
  exec (CreateDrain args) tr out ->
  Forall (fun ev => known_command (ev_call ev)) tr /\
  (forall verb rest r,
     Ev (CliCommand (verb :: rest)) r ∈ tr -> (verb ∉ undoing) /\ verb <> "set-env").
Proof.
  intros Hx.
  assert (Hk : Forall (fun ev => known_command (ev_call ev)) tr).
  { revert Hx. apply every_call_exec. apply every_call_CreateDrain.
    - intros opts. unfold serviceName. calls_all ltac:(exact I).
    - intros. unfold createAndBindService.
      calls_all ltac:(first
        [ exact I
        | eexists _, _; split;
            [reflexivity|unfold verbs; auto 10 using list_elem_of_here, list_elem_of_further] ]).
    - intros. unfold pushSyslogForwarder, sourceID, createUser, envCommands.
      calls_all ltac:(first
        [ exact I
        | eexists _, _; split;
            [reflexivity|unfold verbs; auto 10 using list_elem_of_here, list_elem_of_further]
        | eexists _, _, _; split;
            [reflexivity
            |unfold variables; auto 15 using list_elem_of_here, list_elem_of_further] ]). }
  split; [done|]. intros verb rest r Hin.
  rewrite Forall_forall in Hk. apply Hk in Hin as (verb' & rest' & [= <- <-] & Hv).
  unfold verbs in Hv. unfold undoing. split; [|intros ->]; set_solver.
Qed.

(** X6.  The application adapter succeeds in one way only.  A run that
    ends without a message is: the lookup that resolves the source (the
    application, or after it has failed the service instance), the
    organization, the space and the endpoint, the calls that settle the
    credentials (a user created and given its role, or the prompt and a
    password that is not empty, or nothing), the download, the push from
    the directory of what was downloaded, the question on certificates,
    the group id, the eleven variables with the values of these answers,
    and the start; every call has succeeded. *)
Theorem forwarder_run_complete u target name username password tr :
  exec (pushSyslogForwarder u target name username password) tr (Done tt) ->
  forwarder_run u target name username password tr.
Proof.
  intros Hx. unfold pushSyslogForwarder, sourceID, createUser in Hx.
  remember (Done tt) as out eqn:Hout.
  exec_until IsSSLDisabled Hx; try discriminate Hout.
  all: try match goal with
       | H : _ && _ = true |- _ => by rewrite created_not_prompted in H
       end.
  all: subst out; eapply exec_environment in Hx as (skip & g & settings & o' & -> & Hall).
  all: try match goal with
       | H : String.eqb ?u "" = false, H' : negb (String.eqb ?u "") && _ = _ |- _ =>
           rewrite H in H'; cbn in H'
       end.
  all: try match goal with
       | H : String.eqb (string_of_bytes ?input) "" = _ |- _ =>
           destruct input; cbn in H; try discriminate H
       end.
  all: rewrite ?Sprintf_drain, ?Sprintf_hex, ?Sprintf_prompt in *.
  all: match goal with
       | |- forwarder_run _ ?t _ _ _ (Ev (GetApp _) (Ok ?app) :: _) =>
           exists [Ev (GetApp t) (Ok app)], (Guid app)
       | |- forwarder_run _ ?t _ _ _
              (Ev (GetApp _) (Err ?e) :: Ev (GetService _) (Ok ?svc) :: _) =>
           exists [Ev (GetApp t) (Err e); Ev (GetService t) (Ok svc)], (Guid svc)
       end.
  all: eexists _, _, _, _, _, _, _, _, _, _, _, _.
  all: (split; [first [left; eexists; by split|right; eexists _, _; by split]|]).
  all: (split; [unfold settled;
                repeat match goal with H : String.eqb _ _ = _ |- _ => rewrite H end;
                first [ by eexists _, _, _, _, _
                      | eexists _, _; split; [|by repeat split]
                      | done ]|]).
  all: try (split; [reflexivity|exact Hall]).
  all: done.
Qed.

(** X7.  A generated name tells the UUID it was generated from: two runs
    of [serviceName] without a [--drain-name] that give the same name have
    drawn the same UUID.  Names generated from different UUIDs differ. *)
Theorem generated_names_distinct opts1 opts2 tr1 tr2 name :
  DrainName opts1 = "" ->
  DrainName opts2 = "" ->
  exec (serviceName opts1) tr1 (Done name) ->
  exec (serviceName opts2) tr2 (Done name) ->
  tr1 = tr2 /\ exists g, tr1 = [Ev NewV4 (Ok g)] /\ name = "cf-drain-" +:+ uuid.String_ g.
Proof.
  intros Hn1 Hn2. unfold serviceName. rewrite Hn1, Hn2. cbn.
  intros ([g1|e1] & t1 & -> & H1) ([g2|e2] & t2 & -> & H2); cbn in H1, H2;
    destruct H1 as [-> [= H1]]; destruct H2 as [-> [= H2]].
  assert (Heq : "cf-drain-" +:+ uuid.String_ g1 = "cf-drain-" +:+ uuid.String_ g2)
    by (etrans; [symmetry; exact H1|exact H2]).
  apply (append_inj_length "cf-drain-" "cf-drain-") in Heq as [_ Hg]; [|done].
  apply String_inj in Hg as ->. split; [done|]. by exists g2.
Qed.

(** X8.  The annotation of lines 76-84 applied to a URL it has already
    annotated: the outcome is the one of annotating the first URL, so the
    type given last is the type of the URL; an accepted type is the one
    value of [drain-type], and annotating with it once more changes
    nothing. *)
Theorem annotate_again u t1 t2 u1 :
  annotate u t1 = Ret u1 ->
  t2 <> "" ->
  annotate u1 t2 = annotate u t2 /\
  (validDrainType t2 = true ->
   exists u2, annotate u1 t2 = Ret u2 /\ url.Query u2 !! "drain-type" = Some [t2] /\
              annotate u2 t2 = Ret u2).
Proof.
  intros H1 Hn.
  assert (Hq : forall v t, with_drain_type (with_drain_type v t1) t = with_drain_type v t).
  { intros v t. unfold with_drain_type at 1 3. rewrite Query_with_drain_type.
    unfold url.Set_. by rewrite insert_insert_eq. }
  assert (Ha : annotate u1 t2 = annotate u t2).
  { destruct (validDrainType t2) eqn:Hv2.
    - rewrite !annotate_valid by done.
      unfold annotate in H1. destruct (String.eqb t1 ""); cbn in H1; [by injection H1 as <-|].
      destruct (validDrainType t1); cbn in H1; [|done]. injection H1 as <-.
      f_equal. by apply Hq.
    - unfold annotate. apply String.eqb_neq in Hn. by rewrite Hn, Hv2. }
  split; [done|]. intros Hv2. exists (with_drain_type u t2).
  split; [by rewrite Ha, annotate_valid|]. split.
  - by rewrite Query_with_drain_type, lookup_insert_eq.
  - rewrite annotate_valid by done. f_equal.
    unfold with_drain_type at 1. rewrite Query_with_drain_type.
    unfold url.Set_. by rewrite insert_insert_eq.
Qed.

(** X9.  A drain URL without a query, annotated with an accepted type,
    prints as what it printed before the query, then [?drain-type=] and
    the type, then its fragment. *)
Theorem annotate_plain u t :
  url.RawQuery u = "" ->
  validDrainType t = true ->
  exists u', annotate u t = Ret u' /\
             url.String_ u' = url.before_query u +:+ "?drain-type=" +:+ t +:+ url.after_query u.
Proof.
  intros Hq Hv.
  assert (Ht : t ∈ ["logs"; "metrics"; "all"]).
  { unfold validDrainType in Hv. rewrite !orb_true_iff, !String.eqb_eq in Hv. set_solver. }
  exists (with_drain_type u t). split.
  - apply annotate_valid; [|done]. by intros ->.
  - unfold with_drain_type, url.String_, url.Query. rewrite Hq.
    cbn [url.set_RawQuery url.RawQuery url.before_query url.after_query url.ForceQuery].
    repeat (apply elem_of_cons in Ht as [->|Ht]); [..|by apply elem_of_nil in Ht].
    all: vm_compute url.Encode; rewrite orb_true_r; reflexivity.
Qed.

(** X10.  A run of the command makes at most 27 calls, whatever the
    arguments and the answers, and at most 4 unless the adapter type is
    [application]. *)
Theorem calls_bounded args tr out :
  exec (CreateDrain args) tr out ->
  length tr <= 27 /\
  (forall opts positional,
     parses args opts positional -> AdapterType opts <> "application" -> length tr <= 4).
Proof.
  intros Hx.
  assert (Hb : forall n : nat, 4 <= n ->
    (forall opts positional,
       parses args opts positional -> AdapterType opts = "application" -> 27 <= n) ->
    at_most n (CreateDrain args)).
  { intros n H4 Hn. unfold CreateDrain, parses in *.
    destruct (flags_ParseArgs initial_opts args) as [[opts positional]|e]; cbn; [|done].
    destruct positional as [|target [|rawurl [|? ?]]]; cbn; [done..| |done].
    destruct (url_Parse rawurl) as [u|e]; cbn; [|done].
    unfold annotate.
    destruct (negb (String.eqb (DrainType opts) "")); cbn;
      [destruct (negb (validDrainType (DrainType opts))); cbn; [done|]|];
      (destruct (String.eqb_spec (AdapterType opts) "service") as [Hs|Hs];
        [|destruct (String.eqb_spec (AdapterType opts) "application") as [Ha|Ha]; [|done]]).
    all: try (eapply at_most_mono;
              [|apply (at_most_bind 1 3);
                [apply at_most_serviceName|intros; apply at_most_createAndBindService]];
              cbn; lia).
    all: eapply at_most_mono;
           [|apply (at_most_bind 1 26);
             [apply at_most_serviceName|intros; apply at_most_pushSyslogForwarder]];
           cbn; eapply Hn; done. }
  split.
  - eapply at_most_exec; [|exact Hx]. apply Hb; [lia|]. intros; lia.
  - intros opts positional Hp Ha. eapply at_most_exec; [|exact Hx].
    apply Hb; [lia|]. intros opts' ? Hp' Ha'. unfold parses in *. congruence.
Qed.

(** X12.  The application adapter creates a user or asks for a password,
    never both.  With a user name it creates no user: no random bytes are
    read, and neither [create-user] nor [set-space-role] is issued.
    Without a user name, or with a password, it does not prompt and does
    not read a password. *)
Theorem credentials_exclusive u target name username password tr out :
  exec (pushSyslogForwarder u target name username password) tr out ->
  (username <> "" -> Forall (fun ev => ~ creates_user (ev_call ev)) tr) /\
  (username = "" \/ password <> "" -> Forall (fun ev => ~ prompts (ev_call ev)) tr).
Proof.
  intros Hx. split.
  - intros Hu%String.eqb_neq. revert Hx.
    apply (every_call_exec (fun c => ~ creates_user c)).
    unfold pushSyslogForwarder, sourceID, createUser, envCommands. rewrite Hu.
    calls_all ltac:(cbn; first [tauto|by intros [?|?]]).
  - intros Hc. revert Hx. apply (every_call_exec (fun c => ~ prompts c)).
    unfold pushSyslogForwarder, sourceID, createUser, envCommands.
    destruct Hc as [->|Hp%String.eqb_neq].
    all: calls_all ltac:(first
      [ match goal with
        | H : _ && _ = true |- _ => by rewrite created_not_prompted in H
        | Hp : String.eqb ?p "" = false, H : _ && String.eqb ?p "" = true |- _ =>
            by rewrite Hp, andb_false_r in H
        end
      | cbn; tauto ]).
Qed.

(** X13.  Every message a run ends with is accounted for.  A run that has
    made no call ends with the error of the flag parser, or with the
    message on the number of arguments, on the URL, on the drain type or
    on the adapter type, each under its condition and in this order of
    precedence.  A run that has made calls ends with the error of its last
    call; or, when that call is the failed lookup of the service instance,
    with the message on the unknown source; or, when it is the reading of
    an empty password, with the message on blank passwords. *)
Theorem abort_accounted args tr m :
  exec (CreateDrain args) tr (Aborted m) ->
  (tr = [] /\ usage_message args m) \/
  (exists opts target rawurl ev,
     parses args opts [target; rawurl] /\ last tr = Some ev /\ explained target ev m).
Proof.
  unfold CreateDrain, usage_message, parses.
  destruct (flags_ParseArgs initial_opts args) as [[opts positional]|e] eqn:Hp; cbn;
    [|intros [-> [= ->]]; left; split; [done|]; left; by rewrite Sprintf_error].
  destruct positional as [|target [|rawurl [|x l]]]; cbn;
    try (intros [-> [= ->]]; left; split; [done|]; right; exists opts; eexists;
         split; [reflexivity|]; left; split; [cbn; lia|reflexivity]).
  destruct (url_Parse rawurl) as [u|e] eqn:Hu; cbn.
  2:{ intros [-> [= ->]]. left. split; [done|]. right. exists opts; eexists.
      split; [reflexivity|]. right. exists target, rawurl. split; [done|]. left.
      exists e. split; [done|]. apply Sprintf_invalid_url. }
  destruct (decide (type_accepted opts)) as [Ht|Ht].
  2:{ rewrite (annotate_refused _ _ Ht). cbn. intros [-> [= ->]]. left. split; [done|].
      right. exists opts; eexists. split; [reflexivity|]. right. exists target, rawurl.
      split; [done|]. right. exists u. split; [done|]. by left. }
  rewrite (annotate_accepted _ _ Ht). cbn.
  destruct (String.eqb_spec (AdapterType opts) "service") as [Hs|Hs];
    [|destruct (String.eqb_spec (AdapterType opts) "application") as [Ha|Ha]].
  3:{ intros [-> [= ->]]. left. split; [done|].
      right. exists opts; eexists. split; [reflexivity|]. right. exists target, rawurl.
      split; [done|]. right. exists u. split; [done|]. right. by rewrite Sprintf_unsupported. }
  all: intros Hx; right; exists opts, target, rawurl.
  all: assert (Hl : exists ev, last tr = Some ev /\ explained target ev m);
    [|destruct Hl as (ev & ? & ?); by exists ev].
  all: unfold serviceName, createAndBindService, pushSyslogForwarder, sourceID, createUser,
         setEnv, envCommands in Hx.
  all: cbn in Hx; destruct (negb (String.eqb (DrainName opts) "")); cbn in Hx;
    destruct Hx as (r & tr' & -> & Hx);
    (eapply (accounts_exec (explained target)) in Hx; [exact Hx|]);
    destruct_answer r; accounts_all.
Qed.

End Coverage.

(** X11.  [Config] does not keep what it loads.  From the package variable
    at [nil], after any number of calls the variable is still [nil]; every
    call has handed [envstruct.Load] a struct of its own with the zero
    values and the timeouts of 10 and 45 seconds, and has ended as the
    environment of that call decides: with the struct as loaded, or, when
    the load fails, with the message [failed to load drain test config]
    followed by the error as an extra operand.  With the variable set,
    [Config] returns what it points to and loads nothing. *)
Theorem Config_loads_every_time loads es config handed :
  Config_calls loads None = (es, config, handed) ->
  config = None /\
  handed = replicate (length es) fresh_config /\
  es = map loaded (take (length es) loads) /\
  (loads <> [] -> es <> []) /\
  (forall c Load,
     acceptance.Config Load (Some c) = (acceptance.Returned c, Some c, [])).
Proof.
  intros Hc. split; [|split; [|split; [|split]]]; try done.
  all: revert es config handed Hc; induction loads as [|Load loads IH];
    intros es config handed Hc; cbn in Hc.
  all: try (by injection Hc as <- <- <-).
  all: unfold acceptance.Config in Hc;
    change (acceptance.mkTestConfig "" "" "" false _ _) with fresh_config in Hc;
    assert (Hl : loaded Load = match Load fresh_config with
                               | (_, Some err) =>
                                   acceptance.Exited
                                     (acceptance.Sprintf_extra
                                        "failed to load drain test config" err)
                               | (c, None) => acceptance.Returned c
                               end) by done;
    destruct (Load fresh_config) as [c [err|]].
  all: try (injection Hc as <- <- <-; cbn; by rewrite ?Hl).
  all: destruct (Config_calls loads None) as [[es' config'] handed'] eqn:Hr;
    injection Hc as <- <- <-; cbn; try done.
  - by eapply IH.
  - f_equal. by eapply IH.
  - rewrite Hl. f_equal. by eapply IH.
Qed.

(** * Concrete executions *)

#[local] Existing Instance Reference.libraries.


Lemma argument_count_checked_witness :
  exec (CreateDrain four_words) []
        (Aborted (invalid_arguments 4)) /\
  invalid_arguments 4 = "Invalid arguments, expected 2, got 4.".
Proof.
  split; [|vm_compute; reflexivity].
  refine (proj1 (argument_count_checked four_words initial_opts four_words _ _)).
  - vm_compute. reflexivity.
  - simpl. lia.
Defined.

Lemma unsupported_adapter_rejected_witness :
  exec (CreateDrain foo_adapter) [] (Aborted unsupported_adapter).
Proof.
  refine (proj1 (proj2 (unsupported_adapter_rejected foo_adapter
    (options "foo" "" "" "") "app-name" "syslog://a.com?a=b"
    (a_com "a=b") _ _ _ _ _))).
  - vm_compute. reflexivity.
  - vm_compute. reflexivity.
  - left. reflexivity.
  - apply String.eqb_neq. reflexivity.
  - apply String.eqb_neq. reflexivity.
Defined.

(** C9 as the specification words it fails: the adapter type is [foo], and
    the message is the one on the number of arguments. *)
Lemma adapter_contract_counterexample :
  parses foo_only (options "foo" "" "" "") [] /\
  run (Stub.answer Stub.happy) (CreateDrain foo_only)
    = ([], Aborted "Invalid arguments, expected 2, got 0.") /\
  ~ adapter_contract foo_only.
Proof.
  split; [vm_compute; reflexivity|]. split; [vm_compute; reflexivity|].
  intros Hc.
  destruct (Hc (options "foo" "" "" "") [] eq_refl) with
    (tr := @nil event) (out := @Aborted unit "Invalid arguments, expected 2, got 0.")
    as [_ Hout]; [discriminate..| |discriminate].
  vm_compute. done.
Qed.

Lemma service_adapter_contract_witness :
  service_invocation (options "service" "" "" "") "app-name"
    (a_com "a=b")
    (fst (run (Stub.answer Stub.happy) (CreateDrain plain_service)))
    (snd (run (Stub.answer Stub.happy) (CreateDrain plain_service))).
Proof.
  refine (proj2 (service_adapter_contract plain_service
    (options "service" "" "" "") "app-name" "syslog://a.com?a=b"
    (a_com "a=b") _ _ _ _) _).
  - vm_compute. reflexivity.
  - vm_compute. reflexivity.
  - reflexivity.
  - left. reflexivity.
Defined.

(** C1 as the specification words it fails: two positional arguments, a
    URL that parses, the adapter type [service], and the run ends on the
    drain type before any lookup. *)
Lemma service_contract_counterexample :
  parses garbage_type (options "service" "" "garbage" "")
    ["app-name"; "syslog://a.com"] /\
  url_Parse "syslog://a.com" = Ok (a_com "") /\
  run (Stub.answer Stub.happy) (CreateDrain garbage_type)
    = ([], Aborted "Invalid type: garbage") /\
  ~ service_contract garbage_type.
Proof.
  split; [vm_compute; reflexivity|]. split; [vm_compute; reflexivity|].
  split; [vm_compute; reflexivity|].
  intros Hc.
  destruct (Hc (options "service" "" "garbage" "") "app-name" "syslog://a.com"
              (a_com "") eq_refl eq_refl eq_refl
              [] (Aborted "Invalid type: garbage"))
    as [(_ & e & [=] & _)|(pre & name & rest & _ & Heq & Hrun)].
  - vm_compute. done.
  - symmetry in Heq. apply app_eq_nil in Heq as [_ ->].
    destruct Hrun as [(? & [=] & _)|[(? & ? & [=] & _)|[(? & ? & ? & [=] & _)|(? & ? & ? & [=] & _)]]].
Qed.

Lemma drain_type_annotation_witness :
  Forall (fun ev => carries (url.String_ (with_drain_type (a_com "") "metrics")) (ev_call ev))
    (fst (run (Stub.answer Stub.happy) (CreateDrain metrics_type))) /\
  url.String_ (with_drain_type (a_com "") "metrics") = "syslog://a.com?drain-type=metrics".
Proof.
  split; [|vm_compute; reflexivity].
  refine (proj2 (proj2 (proj2 (proj2 (proj1 (proj2 (drain_type_annotation metrics_type
    (options "service" "my-drain" "metrics" "") "app-name" "syslog://a.com" (a_com "") _ _ _))
    _)))) _ _ (run_exec _ _)).
  - vm_compute. reflexivity.
  - vm_compute. reflexivity.
  - apply String.eqb_neq. reflexivity.
  - reflexivity.
Defined.

(** C3 as the specification words it fails: the URL has the parameter
    [drain-type=logs], the option sets [metrics], and the parameter the URL
    had is gone from the URL the service instance is created with. *)
Lemma type_contract_counterexample :
  parses metrics_over_logs (options "service" "my-drain" "metrics" "")
    ["app-name"; "syslog://a.com?drain-type=logs"] /\
  url_Parse "syslog://a.com?drain-type=logs" = Ok (a_com "drain-type=logs") /\
  url.Query (a_com "drain-type=logs") !!! "drain-type" = ["logs"] /\
  url.Query (with_drain_type (a_com "drain-type=logs") "metrics") !!! "drain-type" = ["metrics"] /\
  cliCommandArgs (fst (run (Stub.answer Stub.happy) (CreateDrain metrics_over_logs)))
    = [["create-user-provided-service"; "my-drain"; "-l"; "syslog://a.com?drain-type=metrics"];
       ["bind-service"; "app-name"; "my-drain"]] /\
  ~ type_contract metrics_over_logs.
Proof.
  assert (Hb : url.Query (a_com "drain-type=logs") !!! "drain-type" = ["logs"])
    by (vm_compute; reflexivity).
  assert (Ha : url.Query (with_drain_type (a_com "drain-type=logs") "metrics") !!! "drain-type"
               = ["metrics"]) by (vm_compute; reflexivity).
  split; [vm_compute; reflexivity|]. split; [vm_compute; reflexivity|].
  split; [done|]. split; [done|]. split; [vm_compute; reflexivity|].
  intros Hc.
  destruct (Hc (options "service" "my-drain" "metrics" "") "app-name"
              "syslog://a.com?drain-type=logs" (a_com "drain-type=logs")
              eq_refl eq_refl eq_refl) as [_ Hkeep].
  specialize (Hkeep "drain-type" "logs").
  change (DrainType _) with "metrics" in Hkeep. rewrite Ha, Hb in Hkeep.
  specialize (Hkeep ltac:(by left)). by apply list_elem_of_singleton in Hkeep.
Qed.

Lemma failures_abort_witness :
  snd (run (Stub.answer push_fails) (CreateDrain application_adapter)) = Aborted "push error" /\
  fail_fast
    (fun ev => AdapterType (options "application" "my-drain" "" "my-user") = "application" /\
               source_lookup ev)
    (fst (run (Stub.answer push_fails) (CreateDrain application_adapter)))
    (snd (run (Stub.answer push_fails) (CreateDrain application_adapter))).
Proof.
  split; [vm_compute; reflexivity|].
  refine (failures_abort application_adapter (options "application" "my-drain" "" "my-user")
            ["app-name"; "syslog://a.com?a=b"] _ _ _ (run_exec _ _)).
  vm_compute. reflexivity.
Defined.

(** C5 as the specification words it fails: on the application adapter the
    lookup of the application fails, and the run goes on to the end. *)
Lemma failure_contract_counterexample :
  fst (run (Stub.answer app_unknown) (CreateDrain application_adapter)) !! 0
    = Some (Ev (GetApp "app-name") (Err "unknown app")) /\
  length (fst (run (Stub.answer app_unknown) (CreateDrain application_adapter))) = 23 /\
  snd (run (Stub.answer app_unknown) (CreateDrain application_adapter)) = Done tt /\
  ~ failure_contract application_adapter.
Proof.
  assert (H0 : fst (run (Stub.answer app_unknown) (CreateDrain application_adapter)) !! 0
               = Some (Ev (GetApp "app-name") (Err "unknown app")))
    by (vm_compute; reflexivity).
  assert (Hl : length (fst (run (Stub.answer app_unknown) (CreateDrain application_adapter))) = 23)
    by (vm_compute; reflexivity).
  split; [done|]. split; [done|]. split; [vm_compute; reflexivity|].
  intros Hc.
  destruct (Hc _ _ (run_exec _ _) 0 _ "unknown app" H0 eq_refl (fun x => x)) as [Hlen _].
  rewrite Hl in Hlen. discriminate Hlen.
Qed.

Lemma forwarder_name_witness :
  forwarder_invocation (options "application" "" "" "")
    (fst (run (Stub.answer Stub.happy) (CreateDrain application_generated)))
    (snd (run (Stub.answer Stub.happy) (CreateDrain application_generated))).
Proof.
  refine (proj2 (forwarder_name application_generated (options "application" "" "" "")
    "app-name" "syslog://a.com?a=b" (a_com "a=b") _ _ _ _) _).
  - vm_compute. reflexivity.
  - vm_compute. reflexivity.
  - reflexivity.
  - left. reflexivity.
Defined.

Lemma source_resolved_witness :
  source_resolution in_quotes "app-name"
    (fst (run (Stub.answer Stub.happy)
            (pushSyslogForwarder (a_com "a=b") "app-name" "my-drain" "my-user" "")))
    (snd (run (Stub.answer Stub.happy)
            (pushSyslogForwarder (a_com "a=b") "app-name" "my-drain" "my-user" ""))).
Proof.
  refine (proj2 (source_resolved (a_com "a=b") "app-name" "my-drain" "my-user" "" _ _
                   (run_exec _ _)) _).
  vm_compute. reflexivity.
Defined.

(** C6 as the specification words it fails: the name has a double quote
    in it, and the message shows it after a backslash. *)
Lemma source_contract_counterexample :
  run (Stub.answer nothing_known)
      (pushSyslogForwarder (a_com "a=b") quoted_name "my-drain" "my-user" "")
    = ([Ev (GetApp quoted_name) (Err "unknown app");
        Ev (GetService quoted_name) (Err "unknown service")],
       Aborted ("unknown application or service " +:+
                String dquote (String "a" (String "\" (String dquote
                  (String "b" (String dquote ""))))))) /\
  ~ source_contract quoted_name.
Proof.
  assert (Hrun : run (Stub.answer nothing_known)
      (pushSyslogForwarder (a_com "a=b") quoted_name "my-drain" "my-user" "")
    = ([Ev (GetApp quoted_name) (Err "unknown app");
        Ev (GetService quoted_name) (Err "unknown service")],
       Aborted ("unknown application or service " +:+
                String dquote (String "a" (String "\" (String dquote
                  (String "b" (String dquote ""))))))))
    by (vm_compute; reflexivity).
  split; [done|]. intros Hc.
  pose proof (Hc (a_com "a=b") "my-drain" "my-user" "" _ _
                (run_exec (Stub.answer nothing_known) _)) as Hs.
  rewrite Hrun in Hs. cbn [fst snd] in Hs.
  destruct Hs as [(app & rest & Heq & _)|[(e & svc & rest & Heq & _)|(e & e' & _ & Hout)]].
  - by apply Ev_cons_inj in Heq as [[=] _].
  - apply Ev_cons_inj in Heq as [_ Heq]. by apply Ev_cons_inj in Heq as [[=] _].
  - vm_compute in Hout. discriminate Hout.
Qed.

Lemma session_values_witness :
  exists org space endpoint rest uaa lc,
    session_of (fst (run (Stub.answer Stub.happy)
        (pushSyslogForwarder (a_com "a=b") "app-name" "my-drain" "my-user" "")))
      = Some (org, space, endpoint, rest) /\
    ["set-env"; "my-drain"; "SOURCE_HOST_NAME";
     Name org +:+ "." +:+ Name space +:+ "." +:+ "app-name"]
      ∈ cliCommandWithoutTerminalOutputArgs rest /\
    ["set-env"; "my-drain"; "UAA_URL"; uaa] ∈ cliCommandWithoutTerminalOutputArgs rest /\
    replaced_first "api." "uaa." endpoint uaa /\
    ["set-env"; "my-drain"; "LOG_CACHE_HTTP_ADDR"; lc]
      ∈ cliCommandWithoutTerminalOutputArgs rest /\
    replaced_first "api." "log-cache." endpoint lc.
Proof.
  refine (proj1 (proj2 (session_values (a_com "a=b") "app-name" "my-drain" "my-user" "" _ _
                          (run_exec (Stub.answer Stub.happy) _))) _).
  vm_compute. reflexivity.
Defined.

Lemma environment_set_witness :
  exists rest,
    after_push (fst (run (Stub.answer Stub.happy)
        (pushSyslogForwarder (a_com "a=b") "app-name" "my-drain" "my-user" ""))) = Some rest /\
    length rest = 14 /\
    environment_phase "my-drain" (a_com "a=b") rest
      (snd (run (Stub.answer Stub.happy)
        (pushSyslogForwarder (a_com "a=b") "app-name" "my-drain" "my-user" ""))).
Proof.
  eexists. split; [vm_compute; reflexivity|]. split; [reflexivity|].
  refine (proj1 (environment_set (a_com "a=b") "app-name" "my-drain" "my-user" "" _ _
                   (run_exec (Stub.answer Stub.happy) _)) _ _).
  vm_compute. reflexivity.
Defined.

Lemma credentials_determined_witness :
  snd (run (Stub.answer empty_input)
         (pushSyslogForwarder (a_com "a=b") "app-name" "my-drain" "my-user" ""))
    = Aborted "Password cannot be blank." /\
  credentials "Password cannot be blank." "my-drain" "my-user" "" "application-guid"
    (drop 4 (fst (run (Stub.answer empty_input)
                    (pushSyslogForwarder (a_com "a=b") "app-name" "my-drain" "my-user" ""))))
    (snd (run (Stub.answer empty_input)
            (pushSyslogForwarder (a_com "a=b") "app-name" "my-drain" "my-user" ""))).
Proof.
  split; [vm_compute; reflexivity|].
  refine (proj1 (credentials_determined "my-user" "") (a_com "a=b") "app-name" "my-drain" _ _
            (run_exec (Stub.answer empty_input) _) "application-guid"
            (mkModel "org-guid" "org-name") (mkModel "space-guid" "space-name")
            "api.example.com" _ _ _);
    vm_compute; reflexivity.
Defined.

(** C4 as the specification words it fails: a user name is given, the
    password read is empty, and the message of the run ends with a period. *)
Lemma password_contract_counterexample :
  run (Stub.answer empty_input)
      (pushSyslogForwarder (a_com "a=b") "app-name" "my-drain" "my-user" "")
    = ([Ev (GetApp "app-name") (Ok (mkModel "application-guid" "app-name"));
        Ev GetCurrentOrg (Ok (mkModel "org-guid" "org-name"));
        Ev GetCurrentSpace (Ok (mkModel "space-guid" "space-name"));
        Ev ApiEndpoint (Ok "api.example.com");
        Ev (Printf "Enter a password for my-user: ") tt;
        Ev (ReadPassword 0) (Ok [])],
       Aborted "Password cannot be blank.") /\
  ~ password_contract "my-user" "".
Proof.
  assert (Hrun : run (Stub.answer empty_input)
      (pushSyslogForwarder (a_com "a=b") "app-name" "my-drain" "my-user" "")
    = ([Ev (GetApp "app-name") (Ok (mkModel "application-guid" "app-name"));
        Ev GetCurrentOrg (Ok (mkModel "org-guid" "org-name"));
        Ev GetCurrentSpace (Ok (mkModel "space-guid" "space-name"));
        Ev ApiEndpoint (Ok "api.example.com");
        Ev (Printf "Enter a password for my-user: ") tt;
        Ev (ReadPassword 0) (Ok [])],
       Aborted "Password cannot be blank."))
    by (vm_compute; reflexivity).
  split; [done|]. intros Hc.
  pose proof (run_exec (Stub.answer empty_input)
                (pushSyslogForwarder (a_com "a=b") "app-name" "my-drain" "my-user" "")) as Hx.
  rewrite Hrun in Hx. cbn [fst snd] in Hx.
  pose proof (Hc _ _ _ _ _ Hx "application-guid" _ _ _ _ eq_refl eq_refl) as Hs.
  destruct Hs as (r1 & m1 & Heq & r2 & m2 & -> & Hchk).
  apply Ev_cons_inj in Heq as [_ Heq]. apply Ev_cons_inj in Heq as [<- <-].
  destruct Hchk as [_ [=]].
Qed.

Lemma invalid_url_rejected_witness :
  exec (CreateDrain ["app-name"; "://://blablabla"]) []
    (Aborted "Invalid syslog drain URL: parse ://://blablabla: missing protocol scheme").
Proof.
  refine (proj1 (invalid_url_rejected ["app-name"; "://://blablabla"]
                   (options "service" "" "" "") "app-name" "://://blablabla"
                   "parse ://://blablabla: missing protocol scheme" _ _));
    vm_compute; reflexivity.
Defined.

Lemma buildDrainName_serviceName_witness :
  buildDrainName (DrainName (options "service" "my-drain" "" "")) = Ret "my-drain".
Proof.
  refine (proj1 (proj2 (buildDrainName_serviceName (options "service" "my-drain" "" ""))) _).
  apply String.eqb_neq. reflexivity.
Defined.

Lemma lookup_comes_first_witness :
  fst (run (Stub.answer Stub.happy) (CreateDrain plain_service)) !! 1
    = Some (Ev (GetApp "app-name") (Ok (mkModel "application-guid" "app-name"))) /\
  ((fst (run (Stub.answer Stub.happy) (CreateDrain plain_service)) = [] /\
    exists m, snd (run (Stub.answer Stub.happy) (CreateDrain plain_service)) = Aborted m) \/
   (exists opts target rawurl,
      parses plain_service opts [target; rawurl] /\
      lookup_first opts target
        (fst (run (Stub.answer Stub.happy) (CreateDrain plain_service)))
        (snd (run (Stub.answer Stub.happy) (CreateDrain plain_service))))).
Proof.
  split; [vm_compute; reflexivity|].
  exact (lookup_comes_first plain_service _ _ (run_exec _ _)).
Defined.


Lemma commands_known_witness :
  length (fst (run (Stub.answer Stub.happy) (CreateDrain application_adapter))) = 22 /\
  Forall (fun ev => known_command (ev_call ev))
    (fst (run (Stub.answer Stub.happy) (CreateDrain application_adapter))).
Proof.
  split; [vm_compute; reflexivity|].
  exact (proj1 (commands_known application_adapter _ _ (run_exec _ _))).
Defined.

Lemma forwarder_run_complete_witness :
  forwarder_run (a_com "a=b") "app-name" "my-drain" "my-user" ""
    (fst (run (Stub.answer Stub.happy)
            (pushSyslogForwarder (a_com "a=b") "app-name" "my-drain" "my-user" ""))).
Proof.
  refine (forwarder_run_complete (a_com "a=b") "app-name" "my-drain" "my-user" "" _
            (eq_rect _ (exec _ _) (run_exec (Stub.answer Stub.happy) _) (Done tt) _)).
  vm_compute. reflexivity.
Defined.

Lemma generated_names_distinct_witness :
  fst (run (Stub.answer Stub.happy) (serviceName (options "service" "" "" "")))
    = fst (run (Stub.answer Stub.happy) (serviceName (options "application" "" "" ""))) /\
  exists g,
    fst (run (Stub.answer Stub.happy) (serviceName (options "service" "" "" "")))
      = [Ev NewV4 (Ok g)] /\
    "cf-drain-05101b26-313c-4752-5d68-737e89949faa" = "cf-drain-" +:+ uuid.String_ g.
Proof.
  refine (generated_names_distinct (options "service" "" "" "")
            (options "application" "" "" "") _ _ _ eq_refl eq_refl
            (eq_rect _ (exec _ _) (run_exec (Stub.answer Stub.happy) _) (Done _) _)
            (eq_rect _ (exec _ _) (run_exec (Stub.answer Stub.happy) _) (Done _) _));
    vm_compute; reflexivity.
Defined.

Lemma annotate_again_witness :
  annotate (with_drain_type (a_com "a=b") "logs") "metrics"
    = annotate (a_com "a=b") "metrics" /\
  url.String_ (with_drain_type (with_drain_type (a_com "a=b") "logs") "metrics")
    = "syslog://a.com?a=b&drain-type=metrics".
Proof.
  split; [|vm_compute; reflexivity].
  refine (proj1 (annotate_again (a_com "a=b") "logs" "metrics"
                   (with_drain_type (a_com "a=b") "logs") _ _)).
  - vm_compute. reflexivity.
  - apply String.eqb_neq. reflexivity.
Defined.

Lemma annotate_plain_witness :
  exists u',
    annotate (a_com "") "all" = Ret u' /\
    url.String_ u' = url.before_query (a_com "") +:+ "?drain-type=" +:+ "all" +:+
                     url.after_query (a_com "").
Proof. exact (annotate_plain (a_com "") "all" eq_refl eq_refl). Defined.

Lemma calls_bounded_witness :
  length (fst (run (Stub.answer app_unknown) (CreateDrain longest_run))) = 27 /\
  length (fst (run (Stub.answer app_unknown) (CreateDrain longest_run))) <= 27.
Proof.
  split; [vm_compute; reflexivity|].
  exact (proj1 (calls_bounded longest_run _ _ (run_exec _ _))).
Defined.

Lemma Config_loads_every_time_witness :
  snd (fst (Config_calls [required_only; required_only] None)) = None /\
  snd (Config_calls [required_only; required_only] None) = [fresh_config; fresh_config].
Proof.
  split.
  - refine (proj1 (Config_loads_every_time [required_only; required_only]
                     (fst (fst (Config_calls [required_only; required_only] None)))
                     _ (snd (Config_calls [required_only; required_only] None)) _)).
    vm_compute. reflexivity.
  - vm_compute. reflexivity.
Defined.

Lemma credentials_exclusive_witness :
  Forall (fun ev => ~ creates_user (ev_call ev))
    (fst (run (Stub.answer Stub.happy)
            (pushSyslogForwarder (a_com "a=b") "app-name" "my-drain" "my-user" ""))).
Proof.
  refine (proj1 (credentials_exclusive (a_com "a=b") "app-name" "my-drain" "my-user" "" _ _
                   (run_exec (Stub.answer Stub.happy) _)) _).
  apply String.eqb_neq. reflexivity.
Defined.

Lemma abort_accounted_witness :
  snd (run (Stub.answer push_fails) (CreateDrain application_adapter)) = Aborted "push error" /\
  ((fst (run (Stub.answer push_fails) (CreateDrain application_adapter)) = [] /\
    usage_message application_adapter "push error") \/
   (exists opts target rawurl ev,
      parses application_adapter opts [target; rawurl] /\
      last (fst (run (Stub.answer push_fails) (CreateDrain application_adapter))) = Some ev /\
      explained target ev "push error")).
Proof.
  split; [vm_compute; reflexivity|].
  refine (abort_accounted application_adapter _ "push error"
            (eq_rect _ (exec _ _) (run_exec (Stub.answer push_fails) _) (Aborted _) _)).
  vm_compute. reflexivity.
Defined.

(** The digests of the standard test vectors. *)
Example Sum256_abc :
  fmt.hex_bytes (sha256.Sum256 (bytes_of_string "abc"))
    = "ba7816bf8f01cfea414140de5dae2223b00361a396177a9cb410ff61f20015ad".
Proof. vm_compute. reflexivity. Qed.

Example Sum256_empty :
  fmt.hex_bytes (sha256.Sum256 [])
    = "e3b0c44298fc1c149afbf4c8996fb92427ae41e4649b934ca495991b7852b855".
Proof. vm_compute. reflexivity. Qed.
